(** * Mail-Server: the dispatch, status and retry logic of [app.py]

    A shallow embedding of [src/app.py] and the properties of its
    validator, admission path, retry dispatcher and status registry.

    Conventions of the embedding.
    - A Python [str] is a Rocq [string], one [ascii] per character; [len]
      is [String.length].  The program looks at a character only to compare
      it with ['@'] and ['.'] and to count it.
    - The request body [request.json] is a JSON object whose fields,
      when present, carry the types of the API: strings for [subject],
      [recipient], [body], [cc], [bcc] and a boolean for [is_html].  A
      key that is absent and a key bound to [null] both read as [None]
      through [data.get].
    - [email_status] is a [gmap string string]; [email_log.csv] is the list
      of rows appended to it.  Opening the file and writing a row can fail
      (a file that cannot be written, a character that cannot be encoded):
      each append is answered by an oracle of the world, and a failed
      append raises and writes nothing.
    - The statements of the [try] block of [send_email] up to
      [server.send_message] (lines 64-81: the message is composed and handed
      to the relay in one SMTP session) are an oracle of the world: a
      delivery attempt either succeeds or raises an exception [e], of which
      the program only ever uses [str(e)].
    - [str(uuid.uuid4())] is an input of [handle_send_email].
    - [executor.submit] queues a job; a worker later takes a queued job and
      runs it.  A job touches [email_status] only at its own key, so a job
      is run as one step. *)

From Stdlib Require Import ZArith Ascii String List Bool Lia.
From stdpp Require Import base option list strings gmap pretty.

Import ListNotations.
Local Open Scope string_scope.
Local Open Scope Z_scope.

(** ** Regular expressions, as needed by [EMAIL_REGEX] *)

Module Regex.

(** The fragment of Python's [re] syntax that the program uses: literal
    characters, negated one-character classes, concatenation and [+].
    [Class p] is a set of characters given by its membership test. *)
Inductive regex : Type :=
| Void : regex
| Eps : regex
| Class (p : ascii -> bool) : regex
| Cat (r1 r2 : regex) : regex
| Alt (r1 r2 : regex) : regex
| Star (r : regex) : regex.

Definition Lit (c : ascii) : regex := Class (Ascii.eqb c).
Definition NotLit (c : ascii) : regex := Class (fun x => negb (Ascii.eqb c x)).
Definition Plus (r : regex) : regex := Cat r (Star r).

Fixpoint nullable (r : regex) : bool :=
  match r with
  | Void => false
  | Eps => true
  | Class _ => false
  | Cat r1 r2 => nullable r1 && nullable r2
  | Alt r1 r2 => nullable r1 || nullable r2
  | Star _ => true
  end.

Fixpoint deriv (c : ascii) (r : regex) : regex :=
  match r with
  | Void => Void
  | Eps => Void
  | Class p => if p c then Eps else Void
  | Cat r1 r2 =>
      if nullable r1 then Alt (Cat (deriv c r1) r2) (deriv c r2)
      else Cat (deriv c r1) r2
  | Alt r1 r2 => Alt (deriv c r1) (deriv c r2)
  | Star r1 => Cat (deriv c r1) (Star r1)
  end.

(** [re.match]: the pattern is anchored at the start of the string only;
    it succeeds as soon as some prefix of [s] is a word of [r]. *)
Fixpoint re_match (r : regex) (s : list ascii) : bool :=
  nullable r ||
  match s with
  | [] => false
  | c :: s' => re_match (deriv c r) s'
  end.

(** The words of a regular expression. *)
Inductive lang : regex -> list ascii -> Prop :=
| lang_eps : lang Eps []
| lang_class p c : p c = true -> lang (Class p) [c]
| lang_cat r1 r2 u v : lang r1 u -> lang r2 v -> lang (Cat r1 r2) (u ++ v)
| lang_alt_l r1 r2 u : lang r1 u -> lang (Alt r1 r2) u
| lang_alt_r r1 r2 u : lang r2 u -> lang (Alt r1 r2) u
| lang_star_nil r : lang (Star r) []
| lang_star_cons r u v : lang r u -> lang (Star r) v -> lang (Star r) (u ++ v).

End Regex.

(** ** Data of the program *)

(** The JSON body of [POST /send-email], read through [data.get]. *)
Record request_body : Type := mkBody {
  get_subject : option string;
  get_recipient : option string;
  get_body : option string;
  get_is_html : option bool;
  get_cc : option string;
  get_bcc : option string
}.

(** The message composed by [send_email] (a [MIMEMultipart] with one
    [MIMEText] part of subtype ["html"] or ["plain"]). *)
Record mime : Type := mkMime {
  hdr_From : string;
  hdr_To : string;
  hdr_Cc : option string;
  hdr_Bcc : option string;
  hdr_Subject : string;
  part_text : string;
  part_subtype : string
}.

(** The arguments handed to [executor.submit]. *)
Record job : Type := mkJob {
  job_subject : string;
  job_recipient : string;
  job_body : string;
  job_is_html : bool;
  job_request_id : string;
  job_sender_email : string;
  job_sender_password : string;
  job_sender_name : option string;
  job_cc : option string;
  job_bcc : option string
}.

(** The mutable state of the process. *)
Record state : Type := mkState {
  email_status : gmap string string;   (* the module-level dict *)
  csv_file : list (list string);       (* rows of email_log.csv, oldest first *)
  delivery_attempts : nat;             (* delivery attempts made so far *)
  stdout : list string;                (* lines printed, oldest first *)
  slept : list Z;                      (* completed time.sleep calls, oldest first *)
  executor : list job;                 (* jobs submitted and not yet run *)
  csv_appends : nat                    (* appends to the log tried so far *)
}.

(** What the program reads from outside: the environment variables, the
    wall clock and the mail relay.  [smtp n server port login password m]
    is the outcome of the [n]-th delivery attempt of the process, for the
    message [m]: [None] when the message was handed over, [Some e] when an
    exception with [str(e) = e] was raised.  [now n] is the formatted time
    at which the [n]-th row of the log is written.  [csv_append n row] is
    the outcome of the [n]-th append to the log that the process tries, for
    the row [row]: [None] when the row was written, [Some e] when opening
    or writing raised an exception with [str(e) = e]. *)
Record world : Type := mkWorld {
  environ : gmap string string;
  now : nat -> string;
  smtp : nat -> string -> option string -> string -> string -> mime -> option string;
  csv_append : nat -> list string -> option string
}.

Definition getenv (W : world) (key : string) : option string := environ W !! key.

(** Python truthiness of a value that is [None] or a [str]. *)
Definition truthy (v : option string) : bool :=
  match v with
  | Some s => negb (String.eqb s "")
  | None => false
  end.

(** A field that has passed the presence check, as a [str]. *)
Definition str_of (v : option string) : string := default "" v.

(** [f"{v}"] for a value that is [None] or a [str]. *)
Definition format_value (v : option string) : string := default "None" v.

Definition len (s : string) : Z := Z.of_nat (String.length s).

(** ** Outcomes of statements: normal return or a raised exception *)

Inductive outcome (A : Type) : Type :=
| Returns (a : A)
| Raises (e : string).
Arguments Returns {A} a.
Arguments Raises {A} e.

Definition M (A : Type) : Type := state -> outcome A * state.

Definition ret {A} (a : A) : M A := fun st => (Returns a, st).

Definition bind {A B} (m : M A) (k : A -> M B) : M B :=
  fun st =>
    match m st with
    | (Returns a, st') => k a st'
    | (Raises e, st') => (Raises e, st')
    end.

(** [try: body except Exception as e: handler e] *)
Definition try_except {A} (body : M A) (handler : string -> M A) : M A :=
  fun st =>
    match body st with
    | (Returns a, st') => (Returns a, st')
    | (Raises e, st') => handler e st'
    end.

Declare Scope py_scope.
Delimit Scope py_scope with py.
Notation "m ;; k" := (bind m (fun _ => k))
  (at level 100, k at level 200, right associativity) : py_scope.

(** ** Primitive effects *)

Definition set_email_status (request_id status : string) : M unit :=
  fun st =>
    (Returns tt,
     mkState (<[request_id := status]> (email_status st)) (csv_file st)
             (delivery_attempts st) (stdout st) (slept st) (executor st)
             (csv_appends st)).

(** [open(CSV_FILE_PATH, mode="a")] and [writer.writerow(row)]: the row is
    appended, or the append raises and the file is as before. *)
Definition writerow (W : world) (row : list string) : M unit :=
  fun st =>
    match csv_append W (csv_appends st) row with
    | None =>
        (Returns tt,
         mkState (email_status st) (csv_file st ++ [row])
                 (delivery_attempts st) (stdout st) (slept st) (executor st)
                 (S (csv_appends st)))
    | Some e =>
        (Raises e,
         mkState (email_status st) (csv_file st)
                 (delivery_attempts st) (stdout st) (slept st) (executor st)
                 (S (csv_appends st)))
    end.

Definition print (line : string) : M unit :=
  fun st =>
    (Returns tt,
     mkState (email_status st) (csv_file st)
             (delivery_attempts st) (stdout st ++ [line]) (slept st) (executor st)
             (csv_appends st)).

(** The largest whole number of seconds that [time.sleep] takes: CPython
    keeps a duration as a 64-bit count of nanoseconds. *)
Definition SLEEP_MAX : Z := 9223372036.

(** [time.sleep(delay)] for an [int]: a negative delay raises
    [ValueError], a delay beyond [SLEEP_MAX] raises [OverflowError]. *)
Definition sleep (delay : Z) : M unit :=
  fun st =>
    if delay <? 0 then (Raises "sleep length must be non-negative", st)
    else if SLEEP_MAX <? delay then
      (Raises "timestamp too large to convert to C PyTime_t", st)
    else
      (Returns tt,
       mkState (email_status st) (csv_file st)
               (delivery_attempts st) (stdout st) (slept st ++ [delay]) (executor st)
               (csv_appends st)).

(** One delivery attempt: the session with the relay, lines 75-81. *)
Definition smtp_session (W : world) (sender_email sender_password : string)
    (message : mime) : M unit :=
  fun st =>
    let smtp_server := default "smtp.gmail.com" (getenv W "SMTP_SERVER") in
    let smtp_port := getenv W "SMTP_PORT" in
    let st' := mkState (email_status st) (csv_file st)
                       (S (delivery_attempts st)) (stdout st) (slept st) (executor st)
                       (csv_appends st) in
    match smtp W (delivery_attempts st) smtp_server smtp_port
               sender_email sender_password message with
    | None => (Returns tt, st')
    | Some e => (Raises e, st')
    end.

Definition submit (j : job) (st : state) : state :=
  mkState (email_status st) (csv_file st)
          (delivery_attempts st) (stdout st) (slept st) (executor st ++ [j])
          (csv_appends st).

(** ** The functions of [app.py] *)

Import Regex.

(** [re.compile(r"[^@]+@[^@]+\.[^@]+")] *)
Definition EMAIL_REGEX : regex :=
  Cat (Plus (NotLit "@"))
 (Cat (Lit "@")
 (Cat (Plus (NotLit "@"))
 (Cat (Lit ".")
      (Plus (NotLit "@"))))).

(** [EMAIL_REGEX.match(recipient)], as a truth value. *)
Definition EMAIL_REGEX_match (recipient : string) : bool :=
  re_match EMAIL_REGEX (list_ascii_of_string recipient).

Definition CSV_HEADER : list string :=
  ["Request ID"; "Sender Email"; "Recipient"; "Subject"; "Date"; "Status"].

(** The file is [None] when it does not exist. *)
Definition initialize_csv_log (file : option (list (list string))) : list (list string) :=
  match file with
  | None => [CSV_HEADER]
  | Some rows => rows
  end.

Definition log_email_to_csv (W : world) (request_id sender_email recipient subject status : string)
    (error_details : option string) : M unit :=
  fun st =>
    let now := now W (length (csv_file st)) in
    if truthy error_details then
      writerow W [request_id; sender_email; recipient; subject; now; status;
                  str_of error_details] st
    else
      writerow W [request_id; sender_email; recipient; subject; now; status] st.

Definition compose_message (subject recipient body : string) (is_html : bool)
    (sender_email : string) (sender_name cc bcc : option string) : mime :=
  {| hdr_From := format_value sender_name ++ " <" ++ sender_email ++ ">";
     hdr_To := recipient;
     hdr_Cc := if truthy cc then cc else None;
     hdr_Bcc := if truthy bcc then bcc else None;
     hdr_Subject := subject;
     part_text := body;
     part_subtype := if is_html then "html" else "plain" |}.

Definition failed (e : string) : string := "failed (" ++ e ++ ")".

Definition send_email (W : world) (subject recipient body : string) (is_html : bool)
    (request_id sender_email sender_password : string)
    (sender_name cc bcc : option string) : M unit :=
  try_except
    (let message :=
       compose_message subject recipient body is_html sender_email sender_name cc bcc in
     smtp_session W sender_email sender_password message ;;
     log_email_to_csv W request_id sender_email recipient subject "sent" None ;;
     set_email_status request_id "sent")%py
    (fun e =>
     log_email_to_csv W request_id sender_email recipient subject (failed e) None ;;
     set_email_status request_id (failed e))%py.

(** The loop of [send_email_with_retry] around a call [call] (in the
    program, the call of [send_email]).  An exception that the [except]
    branch raises itself leaves the function.  [fuel] bounds the number of
    iterations; [None] means that the bound was reached. *)
Fixpoint retry_loop (call : M unit) (request_id : string) (retries : Z)
    (fuel : nat) (attempt delay : Z) (st : state) : option (outcome unit * state) :=
  match fuel with
  | O => None
  | S fuel' =>
      if attempt <? retries then
        match call st with
        | (Returns _, st1) => Some (Returns tt, st1)
        | (Raises e, st1) =>
            let attempt := attempt + 1 in
            if attempt <? retries then
              match (print ("Attempt " ++ pretty attempt ++ " failed. Retrying in "
                              ++ pretty delay ++ " seconds...") ;;
                     sleep delay)%py st1 with
              | (Returns _, st2) =>
                  retry_loop call request_id retries fuel' attempt (delay * 2) st2
              | (Raises e', st2) => Some (Raises e', st2)
              end
            else
              match (print ("Failed to send email after " ++ pretty retries
                              ++ " attempts.") ;;
                     set_email_status request_id (failed e))%py st1 with
              | (Returns _, st2) =>
                  retry_loop call request_id retries fuel' attempt delay st2
              | (Raises e', st2) => Some (Raises e', st2)
              end
        end
      else Some (Returns tt, st)
  end.

(** Iterations that the loop can need: one per value of [attempt] below
    [retries], and the final test. *)
Definition loop_bound (retries : Z) : nat := S (Z.to_nat retries).

Definition send_email_with_retry (W : world) (subject recipients body : string)
    (is_html : bool) (request_id sender_email sender_password : string)
    (sender_name cc bcc : option string) (retries delay : Z)
    (st : state) : option (outcome unit * state) :=
  retry_loop
    (send_email W subject recipients body is_html request_id
                sender_email sender_password sender_name cc bcc)
    request_id retries (loop_bound retries) 0 delay st.

(** [abort(code, description=...)] leaves the handler with an HTTP error. *)
Inductive checked (A : Type) : Type :=
| Passed (a : A)
| Aborted (code : nat) (description : string).
Arguments Passed {A} a.
Arguments Aborted {A} code description.

Definition validate_email_data (data : request_body) : checked unit :=
  let subject := get_subject data in
  let recipient := get_recipient data in
  let body := get_body data in
  if negb (forallb truthy [subject; recipient; body]) then
    Aborted 400 "Missing required fields"
  else if negb (EMAIL_REGEX_match (str_of recipient)) then
    Aborted 400 "Invalid email format"
  else if (len (str_of subject) >? 255) || (len (str_of body) >? 10000) then
    Aborted 400 "Subject or body exceeds character limits"
  else Passed tt.

(** What a route answers: [jsonify(body), code] or the error page of
    [abort]. *)
Inductive response : Type :=
| Jsonify (body : list (string * string)) (code : nat)
| HttpError (code : nat) (description : string).

(** [uuid4] is the value that [str(uuid.uuid4())] has if it is evaluated. *)
Definition handle_send_email (W : world) (data : request_body) (uuid4 : string)
    (st : state) : response * state :=
  match validate_email_data data with
  | Aborted code description => (HttpError code description, st)
  | Passed _ =>
      let subject := str_of (get_subject data) in
      let recipient := str_of (get_recipient data) in
      let body := str_of (get_body data) in
      let is_html := default false (get_is_html data) in
      let cc := get_cc data in
      let bcc := get_bcc data in
      let sender_email := getenv W "USER_EMAIL" in
      let sender_password := getenv W "USER_APP_PASSWORD" in
      let sender_name := getenv W "EMAIL_FROM_NAME" in
      if negb (truthy sender_email) || negb (truthy sender_password) then
        (Jsonify [("error", "Missing user credentials in .env")] 400, st)
      else
        let request_id := uuid4 in
        let st' :=
          submit (mkJob subject recipient body is_html request_id
                        (str_of sender_email) (str_of sender_password)
                        sender_name cc bcc) st in
        (Jsonify [("message", "Email request processed"); ("request_id", request_id)] 200,
         st')
  end.

Definition get_email_status (request_id : string) (st : state) : response :=
  let status := default "Request ID not found" (email_status st !! request_id) in
  Jsonify [("request_id", request_id); ("status", status)] 200.

(** A worker thread takes the [k]-th queued job and runs
    [send_email_with_retry] on its arguments, with the default [retries=3]
    and [delay=5].  An exception that leaves the function stays in the
    future of the job, which nobody reads. *)
Definition run_job (W : world) (j : job) (st : state) : option (outcome unit * state) :=
  send_email_with_retry W (job_subject j) (job_recipient j) (job_body j) (job_is_html j)
    (job_request_id j) (job_sender_email j) (job_sender_password j)
    (job_sender_name j) (job_cc j) (job_bcc j) 3 5 st.

Definition take_job (k : nat) (st : state) : state :=
  mkState (email_status st) (csv_file st)
          (delivery_attempts st) (stdout st) (slept st) (delete k (executor st))
          (csv_appends st).

Definition worker (W : world) (k : nat) (st : state) : state :=
  match executor st !! k with
  | None => st
  | Some j =>
      match run_job W j (take_job k st) with
      | Some (_, st') => st'
      | None => take_job k st
      end
  end.

(** ** The process as a transition system *)

Inductive event : Type :=
| POST_send_email (data : request_body) (uuid4 : string)
| GET_email_status (request_id : string)
| WORKER (k : nat).

Definition step (W : world) (ev : event) (st : state) : state :=
  match ev with
  | POST_send_email data uuid4 => snd (handle_send_email W data uuid4 st)
  | GET_email_status _ => st
  | WORKER k => worker W k st
  end.

Definition run (W : world) (evs : list event) (st : state) : state :=
  foldl (fun st ev => step W ev st) st evs.

(** The process right after start-up, with a new log file. *)
Definition initial_state : state :=
  mkState ∅ (initialize_csv_log None) 0 [] [] [] 0.

(** The identifiers drawn by the [POST] requests of a trace. *)
Definition uuids (evs : list event) : list string :=
  omap (fun ev => match ev with POST_send_email _ u => Some u | _ => None end) evs.

(** ** Shapes of recipient addresses *)

(** [s.count(c)] for a one-character [c]. *)
Definition count_char (c : ascii) (s : string) : nat :=
  length (filter (fun x => x = c) (list_ascii_of_string s)).

(** [x@y.z] with [x], [y] and [z] non-empty and free of ['@']. *)
Definition address_shape (r : string) : Prop :=
  exists x y z : string,
    r = x ++ "@" ++ y ++ "." ++ z /\
    x <> "" /\ y <> "" /\ z <> "" /\
    count_char "@" x = 0%nat /\ count_char "@" y = 0%nat /\ count_char "@" z = 0%nat.

(** What follows the first ['@'] of a string. *)
Fixpoint domain_part (s : string) : string :=
  match s with
  | EmptyString => EmptyString
  | String c s' => if Ascii.eqb c "@" then s' else domain_part s'
  end.

(** The address shape in the words of the specification, section 4.1 (b):
    one ['@'], at least one ['.'] in the domain part. *)
Definition spec_address_shape (r : string) : bool :=
  (count_char "@" r =? 1)%nat && (0 <? count_char "." (domain_part r))%nat.

(** ** Vocabulary of the properties *)

(** The rows of the log whose first column is [request_id]. *)
Definition records_for (request_id : string) (rows : list (list string)) : nat :=
  length (filter (fun row => head row = Some request_id) rows).

(** The status values that [send_email] writes. *)
Definition terminal (status : string) : Prop :=
  status = "sent" \/ exists e, status = failed e.

(** The answer of the relay to the session that a call of [send_email]
    opens in state [st]. *)
Definition relay_answer (W : world) (subject recipient body : string) (is_html : bool)
    (sender_email sender_password : string) (sender_name cc bcc : option string)
    (st : state) : option string :=
  smtp W (delivery_attempts st)
       (default "smtp.gmail.com" (getenv W "SMTP_SERVER")) (getenv W "SMTP_PORT")
       sender_email sender_password
       (compose_message subject recipient body is_html sender_email sender_name cc bcc).

(** The status that the answer of the relay leads to. *)
Definition status_of_answer (answer : option string) : string :=
  match answer with
  | None => "sent"
  | Some e => failed e
  end.

(** A log that takes every append. *)
Definition log_writable (W : world) : Prop :=
  forall n row, csv_append W n row = None.

(** A delay that [time.sleep] takes. *)
Definition sleep_ok (delay : Z) : Prop := 0 <= delay <= SLEEP_MAX.

(** The sleeps of [n] rounds of back-off that start at [delay]. *)
Fixpoint backoff (delay : Z) (n : nat) : list Z :=
  match n with
  | O => []
  | S n' => delay :: backoff (delay * 2) n'
  end.

(** A relay that refuses every session. *)
Definition always_fails (W : world) : Prop :=
  forall n server port user password message,
    smtp W n server port user password message <> None.

(** The identifiers of the queued jobs. *)
Definition queued_ids (st : state) : list string := map job_request_id (executor st).

(** Identifiers are handed out once: with [used] the identifiers drawn so
    far, the queued jobs have distinct identifiers, none of them has a
    registry entry yet, and every identifier that is queued or registered
    has been drawn. *)
Definition ids_fresh (used : list string) (st : state) : Prop :=
  NoDup (queued_ids st) /\
  (forall id, id ∈ queued_ids st -> email_status st !! id = None) /\
  (forall id, id ∈ queued_ids st \/ is_Some (email_status st !! id) -> id ∈ used).

(** Every entry of the registry is a status that [send_email] writes. *)
Definition registry_terminal (st : state) : Prop :=
  forall id status, email_status st !! id = Some status -> terminal status.

(** A field that is absent from the request, or present and empty. *)
Definition absent_or_empty (v : option string) : Prop := v = None \/ v = Some "".

(** ** Sample inputs *)

(** A string of [n] copies of [c]. *)
Fixpoint repeat_char (c : ascii) (n : nat) : string :=
  match n with
  | O => EmptyString
  | S n' => String c (repeat_char c n')
  end.

Definition sample_environ : gmap string string :=
  {[ "USER_EMAIL" := "noreply@example.org"; "USER_APP_PASSWORD" := "secret" ]}.

(** A world whose relay gives the same [answer] to every session, and
    whose log can be written. *)
Definition sample_world (environ : gmap string string) (answer : option string) : world :=
  mkWorld environ (fun _ => "2024-05-01 12:00:00") (fun _ _ _ _ _ _ => answer)
          (fun _ _ => None).


Definition sample_request (subject recipient body : string) : request_body :=
  mkBody (Some subject) (Some recipient) (Some body) None None None.

Definition subject_255 : string := repeat_char "s" 255.
Definition subject_256 : string := repeat_char "s" 256.
Definition body_10000 : string := repeat_char "b" (Z.to_nat 10000).
Definition body_10001 : string := repeat_char "b" (Z.to_nat 10001).

(** ** Vocabulary of the further properties *)

(** Whether [POST /send-email] accepts a request body: the three checks of
    [validate_email_data] and the two credentials. *)
Definition admitted (W : world) (data : request_body) : bool :=
  match validate_email_data data with
  | Passed _ => truthy (getenv W "USER_EMAIL") && truthy (getenv W "USER_APP_PASSWORD")
  | Aborted _ _ => false
  end.

(** Whether an event is a request that is accepted. *)
Definition accepted (W : world) (ev : event) : bool :=
  match ev with
  | POST_send_email data _ => admitted W data
  | _ => false
  end.

(** The number of requests of a trace that are accepted. *)
Definition accepted_posts (W : world) (evs : list event) : nat :=
  length (filter (fun ev => accepted W ev = true) evs).

(** The row that [send_email] writes for a job. *)
Definition job_row (j : job) (date status : string) : list string :=
  [job_request_id j; job_sender_email j; job_recipient j; job_subject j; date; status].

(** What running the [k]-th queued job [j] does to the process: the job
    leaves the queue, between one and three delivery attempts are made, the
    entry of the job is set once, to a terminal status, and the log gains
    the row of that status or, when the appends failed, nothing.  With a
    log that can be written there is one attempt, the row is written, and
    nothing is printed or slept. *)
Definition job_ran (W : world) (j : job) (k : nat) (st st' : state) : Prop :=
  executor st' = delete k (executor st) /\
  (delivery_attempts st < delivery_attempts st' <= delivery_attempts st + 3)%nat /\
  exists status,
    terminal status /\
    email_status st' = <[job_request_id j := status]> (email_status st) /\
    (csv_file st' = csv_file st \/
     exists date, csv_file st' = (csv_file st ++ [job_row j date status])%list) /\
    (log_writable W ->
     (exists date, csv_file st' = (csv_file st ++ [job_row j date status])%list) /\
     delivery_attempts st' = S (delivery_attempts st) /\
     stdout st' = stdout st /\ slept st' = slept st).

(** Every row of the log for [id] carries the registered status of [id],
    and there is at most one such row, and none when [id] is not
    registered. *)
Definition log_within_registry (id : string) (st : state) : Prop :=
  (forall row, row ∈ csv_file st -> head row = Some id ->
     exists sender recipient subject date status,
       row = [id; sender; recipient; subject; date; status] /\
       email_status st !! id = Some status) /\
  (records_for id (csv_file st)
   <= match email_status st !! id with Some _ => 1 | None => 0 end)%nat.

(** A registered [id] has its row in the log. *)
Definition registry_within_log (id : string) (st : state) : Prop :=
  is_Some (email_status st !! id) -> records_for id (csv_file st) = 1%nat.

(** An identifier that has a terminal status. *)
Definition has_terminal_status (id : string) (st : state) : Prop :=
  exists status, terminal status /\ email_status st !! id = Some status.

(** * Properties *)

(** ** The regular-expression matcher *)

Section RegexFacts.

Local Open Scope list_scope.

Lemma lang_void_inv w : ~ lang Void w.
Proof. intros H; inversion H. Qed.

Lemma lang_eps_inv w : lang Eps w <-> w = [].
Proof. split; [intros H; now inversion H | intros ->; constructor]. Qed.

Lemma lang_class_inv p w : lang (Class p) w <-> exists c, w = [c] /\ p c = true.
Proof.
  split.
  - intros H; inversion H; subst; eauto.
  - intros (c & -> & Hc); now constructor.
Qed.

Lemma lang_cat_inv r1 r2 w :
  lang (Cat r1 r2) w <-> exists u v, w = u ++ v /\ lang r1 u /\ lang r2 v.
Proof.
  split.
  - intros H; inversion H; subst; eauto.
  - intros (u & v & -> & H1 & H2); now constructor.
Qed.

Lemma lang_alt_inv r1 r2 w : lang (Alt r1 r2) w <-> lang r1 w \/ lang r2 w.
Proof.
  split.
  - intros H; inversion H; subst; auto.
  - intros [H | H]; [now apply lang_alt_l | now apply lang_alt_r].
Qed.

(** A non-empty word of [Star r] starts with a non-empty word of [r]. *)
Lemma lang_star_cons_inv r c s :
  lang (Star r) (c :: s) ->
  exists u v, s = u ++ v /\ lang r (c :: u) /\ lang (Star r) v.
Proof.
  intros H. remember (Star r) as r' eqn:Er. remember (c :: s) as w eqn:Ew.
  induction H as [| | | | | |r0 u v Hu _ Hv IHv]; try discriminate.
  injection Er as ->. destruct u as [|c' u'].
  - simpl in Ew. now apply IHv.
  - simpl in Ew. injection Ew as -> <-. eauto.
Qed.

Lemma nullable_lang r : nullable r = true <-> lang r [].
Proof.
  induction r as [| |p|r1 IH1 r2 IH2|r1 IH1 r2 IH2|r IH]; simpl.
  - split; [discriminate | intros H; inversion H].
  - split; [constructor | reflexivity].
  - split; [discriminate | intros H; inversion H].
  - rewrite andb_true_iff, IH1, IH2, lang_cat_inv. split.
    + intros [H1 H2]. exists [], []. auto.
    + intros (u & v & E & H1 & H2). symmetry in E.
      apply app_eq_nil in E as [-> ->]. auto.
  - rewrite orb_true_iff, IH1, IH2, lang_alt_inv. reflexivity.
  - split; [constructor | reflexivity].
Qed.

Lemma deriv_lang c r : forall s, lang (deriv c r) s <-> lang r (c :: s).
Proof.
  induction r as [| |p|r1 IH1 r2 IH2|r1 IH1 r2 IH2|r IH]; intros s; simpl.
  - split; intros H; inversion H.
  - split; intros H; inversion H.
  - destruct (p c) eqn:Hp.
    + rewrite lang_eps_inv, lang_class_inv. split.
      * intros ->. eauto.
      * intros (c' & E & _). now injection E.
    + rewrite lang_class_inv. split.
      * intros H; inversion H.
      * intros (c' & E & Hc'). injection E as -> _. congruence.
  - assert (Hcat : lang (Cat (deriv c r1) r2) s <->
                   exists u v, s = u ++ v /\ lang r1 (c :: u) /\ lang r2 v).
    { rewrite lang_cat_inv. split; intros (u & v & E & H1 & H2);
        exists u, v; (split; [exact E|split; [apply IH1; exact H1|exact H2]]). }
    rewrite (lang_cat_inv r1 r2).
    destruct (nullable r1) eqn:Hn.
    + rewrite lang_alt_inv, Hcat, IH2. split.
      * intros [(u & v & -> & H1 & H2) | H2].
        -- exists (c :: u), v. auto.
        -- exists [], (c :: s). split; [reflexivity|]. split; [|exact H2].
           now apply nullable_lang.
      * intros (u & v & E & H1 & H2). destruct u as [|c' u'].
        -- simpl in E. subst v. now right.
        -- simpl in E. injection E as -> ->. left. eauto.
    + rewrite Hcat. split.
      * intros (u & v & -> & H1 & H2). exists (c :: u), v. auto.
      * intros (u & v & E & H1 & H2). destruct u as [|c' u'].
        -- apply nullable_lang in H1. congruence.
        -- simpl in E. injection E as -> ->. eauto.
  - rewrite !lang_alt_inv, IH1, IH2. reflexivity.
  - rewrite lang_cat_inv. split.
    + intros (u & v & -> & H1 & H2). apply IH in H1.
      change (c :: u ++ v) with ((c :: u) ++ v). now constructor.
    + intros H. apply lang_star_cons_inv in H as (u & v & -> & H1 & H2).
      exists u, v. split; [reflexivity|]. split; [now apply IH | exact H2].
Qed.

(** [re_match] succeeds exactly when a prefix of the string is a word of
    the pattern. *)
Lemma re_match_prefix s : forall r,
  re_match r s = true <-> exists p q, s = p ++ q /\ lang r p.
Proof.
  induction s as [|c s IH]; intros r; simpl.
  - rewrite orb_false_r, nullable_lang. split.
    + intros H. exists [], []. auto.
    + intros (p & q & E & H). symmetry in E. apply app_eq_nil in E as [-> _]. exact H.
  - rewrite orb_true_iff, nullable_lang, IH. split.
    + intros [H | (p & q & -> & H)].
      * exists [], (c :: s). auto.
      * exists (c :: p), q. split; [reflexivity | now apply deriv_lang].
    + intros (p & q & E & H). destruct p as [|c' p'].
      * now left.
      * simpl in E. injection E as -> ->. right. exists p', q.
        split; [reflexivity | now apply deriv_lang].
Qed.

End RegexFacts.

(** ** The language of [EMAIL_REGEX] *)

Section AddressPattern.

Local Open Scope list_scope.

Lemma lang_star_class p s :
  lang (Star (Class p)) s <-> Forall (fun c => p c = true) s.
Proof.
  split.
  - intros H. remember (Star (Class p)) as r eqn:Er.
    induction H as [| | | | | |r0 u v Hu _ Hv IHv]; try discriminate.
    + constructor.
    + injection Er as ->. apply lang_class_inv in Hu as (c & -> & Hc).
      simpl. constructor; auto.
  - induction 1 as [|c s Hc _ IH].
    + constructor.
    + change (c :: s) with ([c] ++ s). constructor; [now constructor | exact IH].
Qed.

Lemma lang_plus_class p s :
  lang (Plus (Class p)) s <-> s <> [] /\ Forall (fun c => p c = true) s.
Proof.
  unfold Plus. rewrite lang_cat_inv. split.
  - intros (u & v & -> & Hu & Hv). apply lang_class_inv in Hu as (c & -> & Hc).
    apply lang_star_class in Hv. split; [discriminate | now constructor].
  - intros [Hne Hall]. destruct Hall as [|c s Hc Hs]; [congruence|].
    exists [c], s. split; [reflexivity|].
    split; [now constructor | now apply lang_star_class].
Qed.

Lemma NotLit_true c x : negb (Ascii.eqb c x) = true <-> x <> c.
Proof.
  rewrite negb_true_iff. destruct (Ascii.eqb_spec c x); split; congruence.
Qed.

Lemma lang_plus_not c s :
  lang (Plus (NotLit c)) s <-> s <> [] /\ c ∉ s.
Proof.
  unfold NotLit. rewrite lang_plus_class.
  assert (Forall (fun x => negb (Ascii.eqb c x) = true) s <-> c ∉ s) as ->; [|reflexivity].
  rewrite Forall_forall. split.
  - intros H Hin. apply H, NotLit_true in Hin. congruence.
  - intros H x Hx. apply NotLit_true. intros ->. now apply H.
Qed.

Lemma lang_lit c s : lang (Lit c) s <-> s = [c].
Proof.
  unfold Lit. rewrite lang_class_inv. split.
  - intros (x & -> & Hx). apply Ascii.eqb_eq in Hx. now subst.
  - intros ->. exists c. split; [reflexivity | apply Ascii.eqb_refl].
Qed.

(** The words of the pattern: [x@y.z] with [x], [y], [z] non-empty and
    free of ['@']. *)
Lemma lang_EMAIL_REGEX w :
  lang EMAIL_REGEX w <->
  exists x y z, w = x ++ "@"%char :: y ++ "."%char :: z /\
                x <> [] /\ y <> [] /\ z <> [] /\
                ("@"%char ∉ x) /\ ("@"%char ∉ y) /\ ("@"%char ∉ z).
Proof.
  unfold EMAIL_REGEX. split.
  - intros H.
    apply lang_cat_inv in H as (x & w1 & -> & Hx & H).
    apply lang_cat_inv in H as (a & w2 & -> & Ha & H).
    apply lang_cat_inv in H as (y & w3 & -> & Hy & H).
    apply lang_cat_inv in H as (d & z & -> & Hd & Hz).
    apply lang_lit in Ha as ->. apply lang_lit in Hd as ->.
    apply lang_plus_not in Hx as [? ?]. apply lang_plus_not in Hy as [? ?].
    apply lang_plus_not in Hz as [? ?].
    exists x, y, z. simpl. auto 10.
  - intros (x & y & z & -> & ? & ? & ? & ? & ? & ?).
    apply lang_cat; [now apply lang_plus_not|].
    apply (lang_cat _ _ ["@"%char]); [now apply lang_lit|].
    apply lang_cat; [now apply lang_plus_not|].
    apply (lang_cat _ _ ["."%char]); [now apply lang_lit|].
    now apply lang_plus_not.
Qed.

End AddressPattern.

(** ** Strings and their characters *)

Section Strings.

Local Open Scope list_scope.

Lemma list_ascii_of_string_app (a b : string) :
  list_ascii_of_string (a +:+ b) = list_ascii_of_string a ++ list_ascii_of_string b.
Proof. induction a as [|c a IH]; simpl; [reflexivity | now rewrite IH]. Qed.

Lemma string_of_list_ascii_app (u v : list ascii) :
  string_of_list_ascii (u ++ v) = (string_of_list_ascii u +:+ string_of_list_ascii v).
Proof. induction u as [|c u IH]; simpl; [reflexivity | now rewrite IH]. Qed.

Lemma string_eq_list (a b : string) :
  list_ascii_of_string a = list_ascii_of_string b -> a = b.
Proof.
  intros E. apply (f_equal string_of_list_ascii) in E.
  now rewrite !string_of_list_ascii_of_string in E.
Qed.

Lemma list_ascii_nil (s : string) : list_ascii_of_string s = [] <-> s = EmptyString.
Proof. destruct s; simpl; split; congruence. Qed.

Lemma count_char_app c (a b : string) :
  count_char c (a +:+ b) = (count_char c a + count_char c b)%nat.
Proof. unfold count_char. now rewrite list_ascii_of_string_app, filter_app, length_app. Qed.

Lemma count_char_zero c (s : string) :
  count_char c s = 0%nat <-> c ∉ list_ascii_of_string s.
Proof.
  unfold count_char. induction (list_ascii_of_string s) as [|x l IH].
  - split; [intros _ H; inversion H | reflexivity].
  - rewrite filter_cons. destruct (decide (x = c)) as [->|Hne]; simpl.
    + split; [discriminate | intros H; exfalso; apply H; left].
    + rewrite IH. split.
      * intros H Hin. apply elem_of_cons in Hin as [E | Hin]; [congruence | tauto].
      * intros H Hin. apply H. now right.
Qed.

Lemma count_char_of_list c (l : list ascii) :
  count_char c (string_of_list_ascii l) = 0%nat <-> c ∉ l.
Proof. now rewrite count_char_zero, list_ascii_of_string_of_list_ascii. Qed.

End Strings.

(** ** What [EMAIL_REGEX.match] accepts *)

Section AddressMatch.

(** The match succeeds exactly on the strings that start with an
    [x@y.z]. *)
Lemma EMAIL_REGEX_match_prefix (r : string) :
  EMAIL_REGEX_match r = true <->
  exists p rest : string, r = p ++ rest /\ address_shape p.
Proof.
  unfold EMAIL_REGEX_match. rewrite re_match_prefix. split.
  - intros (p & q & E & H). apply lang_EMAIL_REGEX in H
      as (x & y & z & -> & Hx & Hy & Hz & Ax & Ay & Az).
    exists (string_of_list_ascii (x ++ "@"%char :: y ++ "."%char :: z)%list),
           (string_of_list_ascii q).
    split.
    + rewrite <- string_of_list_ascii_app, <- E.
      now rewrite string_of_list_ascii_of_string.
    + exists (string_of_list_ascii x), (string_of_list_ascii y), (string_of_list_ascii z).
      split; [|repeat split].
      * change ("@"%char :: y ++ "."%char :: z)%list with (["@"%char] ++ y ++ ["."%char] ++ z)%list.
        rewrite !string_of_list_ascii_app. reflexivity.
      * intros E'. apply Hx. apply (f_equal list_ascii_of_string) in E'.
        now rewrite list_ascii_of_string_of_list_ascii in E'.
      * intros E'. apply Hy. apply (f_equal list_ascii_of_string) in E'.
        now rewrite list_ascii_of_string_of_list_ascii in E'.
      * intros E'. apply Hz. apply (f_equal list_ascii_of_string) in E'.
        now rewrite list_ascii_of_string_of_list_ascii in E'.
      * now apply count_char_of_list.
      * now apply count_char_of_list.
      * now apply count_char_of_list.
  - intros (p & rest & -> & x & y & z & -> & Hx & Hy & Hz & Ax & Ay & Az).
    exists (list_ascii_of_string (x ++ "@" ++ y ++ "." ++ z)), (list_ascii_of_string rest).
    split; [apply list_ascii_of_string_app|].
    apply lang_EMAIL_REGEX.
    exists (list_ascii_of_string x), (list_ascii_of_string y), (list_ascii_of_string z).
    split; [|repeat split].
    + rewrite !list_ascii_of_string_app. reflexivity.
    + now rewrite list_ascii_nil.
    + now rewrite list_ascii_nil.
    + now rewrite list_ascii_nil.
    + now apply count_char_zero.
    + now apply count_char_zero.
    + now apply count_char_zero.
Qed.

Lemma address_shape_count (p : string) :
  address_shape p -> count_char "@" p = 1%nat.
Proof.
  intros (x & y & z & -> & _ & _ & _ & Ax & Ay & Az).
  rewrite count_char_app. change ("@" ++ y ++ "." ++ z) with ("@" +:+ (y +:+ ("." +:+ z))).
  rewrite !count_char_app, Ax, Ay, Az. reflexivity.
Qed.

Lemma address_shape_match (r : string) :
  address_shape r -> EMAIL_REGEX_match r = true.
Proof.
  intros H. apply EMAIL_REGEX_match_prefix. exists r, "".
  split; [|exact H]. apply string_eq_list.
  rewrite list_ascii_of_string_app. simpl. now rewrite app_nil_r.
Qed.

(** On a string with at most one ['@'] the match decides the shape. *)
Lemma EMAIL_REGEX_match_one_at (r : string) :
  (count_char "@" r <= 1)%nat ->
  EMAIL_REGEX_match r = true <-> address_shape r.
Proof.
  intros Hcount. split; [|apply address_shape_match].
  intros H. apply EMAIL_REGEX_match_prefix in H as (p & rest & -> & Hp).
  pose proof (address_shape_count p Hp) as Hone.
  rewrite count_char_app, Hone in Hcount.
  assert (Hrest : count_char "@" rest = 0%nat) by lia.
  destruct Hp as (x & y & z & -> & Hx & Hy & Hz & Ax & Ay & Az).
  exists x, y, (z ++ rest). split; [|repeat split; auto].
  - apply string_eq_list. rewrite !list_ascii_of_string_app. simpl.
    rewrite <- !app_assoc. simpl. rewrite <- !app_assoc. reflexivity.
  - destruct z; [congruence | discriminate].
  - rewrite count_char_app. lia.
Qed.

Example EMAIL_REGEX_match_samples :
  map EMAIL_REGEX_match
      ["bob@example.org"; "a@b.c"; "a@b.c@d"; "x a@b..c"; "a@.c"; "@b.c"; "a@b."; "a@b"; "a.b"; "a@@b.c"]
  = [true; true; true; true; false; false; false; false; false; false].
Proof. reflexivity. Qed.

End AddressMatch.

(** ** One delivery attempt and the retry loop *)

Section Dispatch.

Local Open Scope list_scope.

Variable W : world.
Variables subject recipient body : string.
Variable is_html : bool.
Variables request_id sender_email sender_password : string.
Variables sender_name cc bcc : option string.

Local Abbreviation attempt :=
  (send_email W subject recipient body is_html request_id
              sender_email sender_password sender_name cc bcc).

Local Abbreviation answer :=
  (relay_answer W subject recipient body is_html
                sender_email sender_password sender_name cc bcc).


Lemma failed_terminal e : terminal (failed e).
Proof. right. now exists e. Qed.

(** One call of [send_email]: it returns, having written one row and the
    status of that row; or it raises the error of an append to the log,
    having written neither a row nor a status. *)
Lemma send_email_cases st :
  exists o st',
    attempt st = (o, st') /\
    delivery_attempts st' = S (delivery_attempts st) /\
    stdout st' = stdout st /\ slept st' = slept st /\ executor st' = executor st /\
    ((o = Returns tt /\
      exists status date,
        terminal status /\
        email_status st' = <[request_id := status]> (email_status st) /\
        csv_file st' =
          csv_file st ++ [[request_id; sender_email; recipient; subject; date; status]]) \/
     (exists e n row,
        o = Raises e /\ csv_append W n row = Some e /\
        email_status st' = email_status st /\ csv_file st' = csv_file st)).
Proof.
  unfold send_email, try_except, bind, smtp_session, log_email_to_csv, writerow,
    set_email_status. simpl.
  destruct (smtp W _ _ _ _ _ _) as [e|]; simpl.
  - destruct (csv_append W (csv_appends st) _) as [e2|] eqn:E2; simpl.
    + do 2 eexists. split; [reflexivity|]. simpl. repeat (split; [reflexivity|]).
      right. exists e2. do 2 eexists. split; [reflexivity|]. split; [exact E2|]. auto.
    + do 2 eexists. split; [reflexivity|]. simpl. repeat (split; [reflexivity|]).
      left. split; [reflexivity|]. do 2 eexists. split; [apply failed_terminal|].
      split; reflexivity.
  - destruct (csv_append W (csv_appends st) _) as [e1|] eqn:E1; simpl.
    + destruct (csv_append W (S (csv_appends st)) _) as [e2|] eqn:E2; simpl.
      * do 2 eexists. split; [reflexivity|]. simpl. repeat (split; [reflexivity|]).
        right. exists e2. do 2 eexists. split; [reflexivity|]. split; [exact E2|]. auto.
      * do 2 eexists. split; [reflexivity|]. simpl. repeat (split; [reflexivity|]).
        left. split; [reflexivity|]. do 2 eexists. split; [apply failed_terminal|].
        split; reflexivity.
    + do 2 eexists. split; [reflexivity|]. simpl. repeat (split; [reflexivity|]).
      left. split; [reflexivity|]. do 2 eexists. split; [now left|].
      split; reflexivity.
Qed.

(** The state after one call of [send_email] when the log takes the
    append. *)
Lemma send_email_state st :
  log_writable W ->
  attempt st =
  (Returns tt,
   mkState (<[request_id := status_of_answer (answer st)]> (email_status st))
           (csv_file st ++
              [[request_id; sender_email; recipient; subject;
                now W (length (csv_file st)); status_of_answer (answer st)]])
           (S (delivery_attempts st)) (stdout st) (slept st) (executor st)
           (S (csv_appends st))).
Proof.
  intros Hlog.
  unfold relay_answer, send_email, try_except, bind, smtp_session, log_email_to_csv,
    writerow, set_email_status. simpl.
  destruct (smtp W _ _ _ _ _ _) as [e|]; simpl; rewrite Hlog; reflexivity.
Qed.

(** The loop ends within its bound, whatever the call does. *)
Lemma retry_loop_terminates (call : M unit) (retries : Z) :
  forall fuel attempt0 delay st,
    (Z.to_nat (retries - attempt0) < fuel)%nat ->
    retry_loop call request_id retries fuel attempt0 delay st <> None.
Proof.
  induction fuel as [|fuel IH]; intros attempt0 delay st Hfuel; [lia|].
  cbn [retry_loop]. destruct (Z.ltb_spec attempt0 retries) as [Hlt|Hge]; [|discriminate].
  destruct (call st) as [[[]|e] st1]; [discriminate|]. cbv zeta.
  destruct (Z.ltb_spec (attempt0 + 1) retries).
  - destruct (bind (print _) _ st1) as [[[]|e'] st2]; [apply IH; lia | discriminate].
  - destruct (bind (print _) _ st1) as [[[]|e'] st2]; [apply IH; lia | discriminate].
Qed.

(** With a log that can be written, the first iteration returns. *)
Lemma send_email_with_retry_once retries delay st :
  log_writable W ->
  send_email_with_retry W subject recipient body is_html request_id
    sender_email sender_password sender_name cc bcc retries delay st =
  Some (if 0 <? retries then attempt st else (Returns tt, st)).
Proof.
  intros Hlog. unfold send_email_with_retry, loop_bound. simpl.
  destruct (0 <? retries); [|reflexivity].
  now rewrite send_email_state.
Qed.

(** The loop around [send_email], with [S k] attempts left and delays
    that [time.sleep] takes: it returns, after at most [S k] attempts, and
    has set the status once. *)
Lemma retry_loop_send_email (retries : Z) :
  forall k fuel attempt0 delay st,
    retries = attempt0 + Z.of_nat (S k) ->
    (S k < fuel)%nat ->
    Forall sleep_ok (backoff delay k) ->
    exists st',
      retry_loop attempt request_id retries fuel attempt0 delay st
      = Some (Returns tt, st') /\
      executor st' = executor st /\
      (delivery_attempts st < delivery_attempts st' <= delivery_attempts st + S k)%nat /\
      exists status,
        terminal status /\
        email_status st' = <[request_id := status]> (email_status st) /\
        (csv_file st' = csv_file st \/
         exists date,
           csv_file st' =
             csv_file st ++ [[request_id; sender_email; recipient; subject; date; status]]).
Proof.
  induction k as [|k IH]; intros fuel attempt0 delay st Hr Hf Hsleep.
  - destruct fuel as [|[|fuel]]; try lia. cbn [retry_loop].
    rewrite (proj2 (Z.ltb_lt attempt0 retries)) by lia.
    destruct (send_email_cases st)
      as (o & st1 & Hcall & Hatt & Hout & Hsl & Hex &
          [(-> & s & date & Hs & Hes & Hcsv) | (e & n & row & -> & _ & Hes & Hcsv)]);
      rewrite Hcall.
    + exists st1. split; [reflexivity|]. split; [exact Hex|]. split; [lia|].
      exists s. split; [exact Hs|]. split; [exact Hes|]. right. now exists date.
    + cbv beta iota zeta. rewrite (proj2 (Z.ltb_ge (attempt0 + 1) retries)) by lia.
      unfold bind, print, set_email_status. cbn [fst snd].
      eexists. split; [reflexivity|]. simpl. split; [exact Hex|]. split; [lia|].
      exists (failed e). split; [apply failed_terminal|].
      split; [now rewrite Hes|]. left. exact Hcsv.
  - destruct fuel as [|fuel]; try lia. cbn [retry_loop].
    rewrite (proj2 (Z.ltb_lt attempt0 retries)) by lia.
    destruct (send_email_cases st)
      as (o & st1 & Hcall & Hatt & Hout & Hsl & Hex &
          [(-> & s & date & Hs & Hes & Hcsv) | (e & n & row & -> & _ & Hes & Hcsv)]);
      rewrite Hcall.
    + exists st1. split; [reflexivity|]. split; [exact Hex|]. split; [lia|].
      exists s. split; [exact Hs|]. split; [exact Hes|]. right. now exists date.
    + cbv beta iota zeta. rewrite (proj2 (Z.ltb_lt (attempt0 + 1) retries)) by lia.
      simpl in Hsleep. apply Forall_cons in Hsleep as [[Hd0 Hd1] Hsleep].
      unfold bind, print, sleep. cbn [fst snd].
      rewrite (proj2 (Z.ltb_ge delay 0)) by lia.
      rewrite (proj2 (Z.ltb_ge SLEEP_MAX delay)) by lia.
      match goal with
      | |- context [retry_loop _ _ _ fuel (attempt0 + 1) (delay * 2) ?s] =>
          destruct (IH fuel (attempt0 + 1) (delay * 2) s ltac:(lia) ltac:(lia) Hsleep)
            as (st' & Hrun & Hex' & Hatt' & s' & Hs' & Hes' & Hcsv')
      end.
      simpl in Hex', Hatt', Hes', Hcsv'.
      exists st'. split; [exact Hrun|]. split; [congruence|]. split; [lia|].
      exists s'. split; [exact Hs'|]. split; [now rewrite Hes', Hes|].
      now rewrite Hcsv in Hcsv'.
Qed.

End Dispatch.

(** ** Validation and admission *)

Section Admission.

Variable W : world.

Lemma validate_missing data :
  truthy (get_subject data) = false \/ truthy (get_recipient data) = false \/
  truthy (get_body data) = false ->
  validate_email_data data = Aborted 400 "Missing required fields".
Proof.
  intros H. unfold validate_email_data. simpl.
  destruct H as [-> | [-> | ->]]; simpl; rewrite ?andb_false_r; reflexivity.
Qed.

Lemma validate_bad_address data :
  truthy (get_subject data) = true -> truthy (get_recipient data) = true ->
  truthy (get_body data) = true ->
  EMAIL_REGEX_match (str_of (get_recipient data)) = false ->
  validate_email_data data = Aborted 400 "Invalid email format".
Proof. intros Hs Hr Hb Hm. unfold validate_email_data. simpl. now rewrite Hs, Hr, Hb, Hm. Qed.

Lemma validate_good_address data :
  truthy (get_subject data) = true -> truthy (get_recipient data) = true ->
  truthy (get_body data) = true ->
  EMAIL_REGEX_match (str_of (get_recipient data)) = true ->
  validate_email_data data =
  if (len (str_of (get_subject data)) >? 255) || (len (str_of (get_body data)) >? 10000)
  then Aborted 400 "Subject or body exceeds character limits"
  else Passed tt.
Proof. intros Hs Hr Hb Hm. unfold validate_email_data. simpl. now rewrite Hs, Hr, Hb, Hm. Qed.

(** What a request that passes validation looks like. *)
Lemma validate_passed data :
  validate_email_data data = Passed tt <->
  truthy (get_subject data) = true /\ truthy (get_recipient data) = true /\
  truthy (get_body data) = true /\
  EMAIL_REGEX_match (str_of (get_recipient data)) = true /\
  len (str_of (get_subject data)) <= 255 /\ len (str_of (get_body data)) <= 10000.
Proof.
  unfold validate_email_data. simpl.
  destruct (truthy (get_subject data)), (truthy (get_recipient data)),
    (truthy (get_body data)); simpl; try (split; [discriminate | intuition discriminate]).
  destruct (EMAIL_REGEX_match _); simpl; [|split; [discriminate | intuition discriminate]].
  destruct (Z.gtb_spec (len (str_of (get_subject data))) 255);
    destruct (Z.gtb_spec (len (str_of (get_body data))) 10000); simpl;
    split; try discriminate; try (intros; repeat split; auto; lia);
    intros (_ & _ & _ & _ & ? & ?); lia.
Qed.

(** A request that is not accepted leaves the process as it was. *)
Lemma handle_send_email_rejected data uuid4 st code description :
  validate_email_data data = Aborted code description ->
  handle_send_email W data uuid4 st = (HttpError code description, st).
Proof. intros H. unfold handle_send_email. now rewrite H. Qed.

Lemma handle_send_email_no_credentials data uuid4 st :
  validate_email_data data = Passed tt ->
  truthy (getenv W "USER_EMAIL") = false \/ truthy (getenv W "USER_APP_PASSWORD") = false ->
  handle_send_email W data uuid4 st =
  (Jsonify [("error", "Missing user credentials in .env")] 400, st).
Proof.
  intros Hv Hc. unfold handle_send_email. rewrite Hv.
  destruct Hc as [-> | ->]; simpl; rewrite ?orb_true_r; reflexivity.
Qed.

Lemma handle_send_email_accepted data uuid4 st :
  validate_email_data data = Passed tt ->
  truthy (getenv W "USER_EMAIL") = true -> truthy (getenv W "USER_APP_PASSWORD") = true ->
  handle_send_email W data uuid4 st =
  (Jsonify [("message", "Email request processed"); ("request_id", uuid4)] 200,
   submit (mkJob (str_of (get_subject data)) (str_of (get_recipient data))
                 (str_of (get_body data)) (default false (get_is_html data)) uuid4
                 (str_of (getenv W "USER_EMAIL")) (str_of (getenv W "USER_APP_PASSWORD"))
                 (getenv W "EMAIL_FROM_NAME") (get_cc data) (get_bcc data)) st).
Proof. intros Hv He Hp. unfold handle_send_email. now rewrite Hv, He, Hp. Qed.

Lemma handle_send_email_200 data uuid4 st body st' :
  handle_send_email W data uuid4 st = (Jsonify body 200, st') ->
  validate_email_data data = Passed tt /\
  truthy (getenv W "USER_EMAIL") = true /\ truthy (getenv W "USER_APP_PASSWORD") = true.
Proof.
  unfold handle_send_email.
  destruct (validate_email_data data) as [[]|]; [|discriminate].
  destruct (truthy (getenv W "USER_EMAIL")), (truthy (getenv W "USER_APP_PASSWORD"));
    simpl; try discriminate. auto.
Qed.

(** Admission never writes the registry or the log; it can only queue one
    job, and the job carries the identifier that was drawn. *)
Lemma handle_send_email_effect data uuid4 st :
  let st' := snd (handle_send_email W data uuid4 st) in
  email_status st' = email_status st /\ csv_file st' = csv_file st /\
  delivery_attempts st' = delivery_attempts st /\
  (executor st' = executor st \/
   exists j, executor st' = (executor st ++ [j])%list /\ job_request_id j = uuid4).
Proof.
  unfold handle_send_email.
  destruct (validate_email_data data); simpl; [|auto].
  destruct (negb (truthy _) || negb (truthy _)); simpl; [auto|].
  repeat split. right. eexists. split; reflexivity.
Qed.

Example length_boundary_samples :
  map (fun data => fst (handle_send_email (sample_world sample_environ None) data
                          "id-1" initial_state))
      [sample_request subject_255 "bob@example.org" body_10000;
       sample_request subject_256 "bob@example.org" body_10000;
       sample_request subject_255 "bob@example.org" body_10001]
  = [Jsonify [("message", "Email request processed"); ("request_id", "id-1")] 200;
     HttpError 400 "Subject or body exceeds character limits";
     HttpError 400 "Subject or body exceeds character limits"].
Proof. vm_compute. reflexivity. Qed.

End Admission.

(** ** Workers and traces *)

Section Traces.

Variable W : world.

Local Open Scope list_scope.

(** A worker that finds a job runs it. *)
Lemma worker_ran k st j :
  executor st !! k = Some j -> job_ran W j k st (worker W k st).
Proof.
  intros Hk. unfold worker. rewrite Hk.
  assert (Hsleep : Forall sleep_ok (backoff 5 2)).
  { repeat constructor; unfold SLEEP_MAX; lia. }
  destruct (retry_loop_send_email W (job_subject j) (job_recipient j) (job_body j)
              (job_is_html j) (job_request_id j) (job_sender_email j)
              (job_sender_password j) (job_sender_name j) (job_cc j) (job_bcc j)
              3 2 (loop_bound 3) 0 5 (take_job k st) eq_refl
              ltac:(unfold loop_bound; simpl; lia) Hsleep)
    as (st' & Hrun & Hex & Hatt & s & Hs & Hes & Hcsv).
  unfold run_job, send_email_with_retry. rewrite Hrun.
  simpl in Hex, Hatt, Hes, Hcsv.
  split; [exact Hex|]. split; [lia|]. exists s. split; [exact Hs|].
  split; [exact Hes|]. split; [exact Hcsv|].
  intros Hlog. unfold send_email_with_retry in Hrun.
  pose proof (send_email_with_retry_once W (job_subject j) (job_recipient j) (job_body j)
                (job_is_html j) (job_request_id j) (job_sender_email j)
                (job_sender_password j) (job_sender_name j) (job_cc j) (job_bcc j)
                3 5 (take_job k st) Hlog) as Honce.
  unfold send_email_with_retry in Honce. rewrite Honce in Hrun.
  change (0 <? 3) with true in Hrun. cbv iota in Hrun.
  rewrite (send_email_state _ _ _ _ _ _ _ _ _ _ _ _ Hlog) in Hrun.
  injection Hrun as <-. simpl in *.
  assert (Hsame : status_of_answer
                    (relay_answer W (job_subject j) (job_recipient j) (job_body j)
                       (job_is_html j) (job_sender_email j) (job_sender_password j)
                       (job_sender_name j) (job_cc j) (job_bcc j) (take_job k st)) = s).
  { apply (f_equal (fun m => m !! job_request_id j)) in Hes.
    rewrite !lookup_insert_eq in Hes. congruence. }
  rewrite Hsame. split; [eexists; reflexivity | auto].
Qed.

Lemma worker_idle k st : executor st !! k = None -> worker W k st = st.
Proof. intros Hk. unfold worker. now rewrite Hk. Qed.

Lemma run_app evs1 evs2 st : run W (evs1 ++ evs2) st = run W evs2 (run W evs1 st).
Proof. unfold run. apply foldl_app. Qed.

Lemma run_cons ev evs st : run W (ev :: evs) st = run W evs (step W ev st).
Proof. reflexivity. Qed.

Lemma run_snoc evs ev st : run W (evs ++ [ev]) st = step W ev (run W evs st).
Proof. now rewrite run_app. Qed.

(** *** Every registry entry is a terminal status *)

Lemma step_registry_terminal ev st :
  registry_terminal st -> registry_terminal (step W ev st).
Proof.
  intros Hst. destruct ev as [data u | id | k]; simpl.
  - intros id status. destruct (handle_send_email_effect W data u st) as (-> & _). apply Hst.
  - exact Hst.
  - destruct (executor st !! k) as [j|] eqn:Hk.
    + destruct (worker_ran k st j Hk) as (_ & _ & s & Hs & Hes & _).
      intros id status. rewrite Hes.
      rewrite lookup_insert. case_decide; [|apply Hst].
      intros [= <-]. exact Hs.
    + now rewrite worker_idle.
Qed.

Lemma run_registry_terminal evs : forall st,
  registry_terminal st -> registry_terminal (run W evs st).
Proof.
  induction evs as [|ev evs IH]; intros st Hst; [exact Hst|].
  rewrite run_cons. apply IH. now apply step_registry_terminal.
Qed.

Lemma initial_registry_terminal : registry_terminal initial_state.
Proof. intros id status. simpl. now rewrite lookup_empty. Qed.

(** *** Identifiers are used once *)

Lemma initial_ids_fresh : ids_fresh [] initial_state.
Proof.
  split; [|split].
  - constructor.
  - intros id H. simpl. apply lookup_empty.
  - intros id [H | [s H]]; [inversion H | simpl in H; now rewrite lookup_empty in H].
Qed.

Lemma ids_fresh_weaken used used' st :
  (forall id, id ∈ used -> id ∈ used') -> ids_fresh used st -> ids_fresh used' st.
Proof. intros Hsub (H1 & H2 & H3). split; [|split]; auto. Qed.

Lemma step_ids_fresh used ev st :
  ids_fresh used st ->
  (forall u, u ∈ uuids [ev] -> u ∉ used) ->
  ids_fresh (uuids [ev] ++ used) (step W ev st).
Proof.
  intros (Hnd & Hnone & Hused) Hnew. destruct ev as [data u | id | k]; simpl.
  - destruct (handle_send_email_effect W data u st) as (Hes & _ & _ & Hex).
    assert (Hu : u ∉ used) by (apply Hnew; simpl; left).
    destruct Hex as [Hex | (j & Hex & Hj)].
    + apply (ids_fresh_weaken used); [intros; now right|].
      unfold ids_fresh, queued_ids. rewrite Hes, Hex. auto.
    + unfold ids_fresh, queued_ids. rewrite Hes, Hex, map_app. simpl. rewrite Hj.
      split; [|split].
      * apply NoDup_app. split; [exact Hnd|]. split; [|apply NoDup_singleton].
        intros x Hx Hx'. apply list_elem_of_singleton in Hx' as ->. apply Hu, Hused. now left.
      * intros id Hid. apply elem_of_app in Hid as [Hid | Hid]; [now apply Hnone|].
        apply list_elem_of_singleton in Hid as ->.
        destruct (email_status st !! u) eqn:E; [|reflexivity].
        exfalso. apply Hu, Hused. right. eauto.
      * intros id [Hid | Hid].
        -- apply elem_of_app in Hid as [Hid | Hid].
           ++ right. apply Hused. now left.
           ++ apply list_elem_of_singleton in Hid as ->. left.
        -- right. apply Hused. now right.
  - split; [|split]; auto.
  - destruct (executor st !! k) as [j|] eqn:Hk; [|rewrite worker_idle by exact Hk; split; [|split]; auto].
    destruct (worker_ran k st j Hk) as (Hex & _ & s & _ & Hes & _).
    assert (Hsplit : executor st = take k (executor st) ++ j :: drop (S k) (executor st)).
    { symmetry. now apply take_drop_middle. }
    assert (Hdel : delete k (executor st) = take k (executor st) ++ drop (S k) (executor st)).
    { apply delete_take_drop. }
    unfold queued_ids in Hnd, Hnone, Hused. rewrite Hsplit, map_app in Hnd. simpl in Hnd.
    apply NoDup_app in Hnd as (Hnd1 & Hdisj & Hnd2).
    apply NoDup_cons in Hnd2 as (Hj2 & Hnd2).
    assert (Hj1 : job_request_id j ∉ map job_request_id (take k (executor st))).
    { intros Hin. apply (Hdisj _ Hin). left. }
    unfold ids_fresh, queued_ids. rewrite Hex, Hes, Hdel, map_app. split; [|split].
    + apply NoDup_app. split; [exact Hnd1|]. split; [|exact Hnd2].
      intros x Hx Hx'. apply (Hdisj x Hx). now right.
    + intros id Hid.
      assert (Hne : job_request_id j <> id).
      { intros <-. apply elem_of_app in Hid as [Hid | Hid]; tauto. }
      rewrite lookup_insert_ne by exact Hne. apply Hnone.
      rewrite Hsplit, map_app. simpl. apply elem_of_app in Hid as [Hid | Hid];
        apply elem_of_app; [now left | right; now right].
    + intros id [Hid | Hid].
      * apply Hused. left. rewrite Hsplit, map_app. simpl.
        apply elem_of_app in Hid as [Hid | Hid]; apply elem_of_app; [now left | right; now right].
      * apply Hused. rewrite lookup_insert in Hid. case_decide as E; [|now right].
        left. subst id. rewrite Hsplit, map_app. simpl. apply elem_of_app. right. left.
Qed.

(** No step changes or removes an entry of the registry. *)
Lemma step_keeps_entry used ev st id status :
  ids_fresh used st ->
  email_status st !! id = Some status ->
  email_status (step W ev st) !! id = Some status.
Proof.
  intros (_ & Hnone & _) Hid. destruct ev as [data u | id' | k]; simpl.
  - now destruct (handle_send_email_effect W data u st) as (-> & _).
  - exact Hid.
  - destruct (executor st !! k) as [j|] eqn:Hk; [|now rewrite worker_idle].
    destruct (worker_ran k st j Hk) as (_ & _ & s & _ & -> & _).
    rewrite lookup_insert_ne; [exact Hid|]. intros <-.
    rewrite Hnone in Hid; [discriminate|].
    unfold queued_ids. apply list_elem_of_fmap. exists j. split; [reflexivity|].
    eapply list_elem_of_lookup_2, Hk.
Qed.

Lemma uuids_app evs1 evs2 : uuids (evs1 ++ evs2) = uuids evs1 ++ uuids evs2.
Proof. unfold uuids. apply omap_app. Qed.

Lemma run_ids_fresh evs : forall used st,
  ids_fresh used st ->
  NoDup (uuids evs ++ used) ->
  ids_fresh (reverse (uuids evs) ++ used) (run W evs st).
Proof.
  induction evs as [|ev evs IH]; intros used st Hst Hnd; [exact Hst|].
  rewrite run_cons. change (ev :: evs) with ([ev] ++ evs) in *.
  rewrite uuids_app in *. rewrite reverse_app, <- app_assoc.
  rewrite <- app_assoc in Hnd. apply NoDup_app in Hnd as (Hnd1 & Hdisj & Hnd2).
  assert (Hstep : ids_fresh (uuids [ev] ++ used) (step W ev st)).
  { apply step_ids_fresh; [exact Hst|]. intros u Hu Hin.
    apply (Hdisj u Hu). apply elem_of_app. now right. }
  specialize (IH _ _ Hstep).
  assert (Hnd' : NoDup (uuids evs ++ uuids [ev] ++ used)).
  { apply NoDup_app in Hnd2 as (Hnd2 & Hdisj2 & Hnd3).
    apply NoDup_app. split; [exact Hnd2|]. split.
    - intros x Hx Hx'. apply elem_of_app in Hx' as [Hx' | Hx'].
      + apply (Hdisj x Hx'). apply elem_of_app. now left.
      + now apply (Hdisj2 x Hx).
    - apply NoDup_app. split; [exact Hnd1|]. split; [|exact Hnd3].
      intros x Hx Hx'. apply (Hdisj x Hx). apply elem_of_app. now right. }
  specialize (IH Hnd').
  eapply ids_fresh_weaken; [|exact IH].
  intros id Hid. apply elem_of_app in Hid as [Hid | Hid]; apply elem_of_app; [now left|].
  right. destruct ev; simpl in *; exact Hid.
Qed.

Lemma run_keeps_entry evs : forall used st id status,
  ids_fresh used st ->
  NoDup (uuids evs ++ used) ->
  email_status st !! id = Some status ->
  email_status (run W evs st) !! id = Some status.
Proof.
  induction evs as [|ev evs IH]; intros used st id status Hst Hnd Hid; [exact Hid|].
  rewrite run_cons. change (ev :: evs) with ([ev] ++ evs) in Hnd.
  rewrite uuids_app, <- app_assoc in Hnd.
  pose proof Hnd as Hnd0. apply NoDup_app in Hnd as (Hnd1 & Hdisj & Hnd2).
  apply (IH (uuids [ev] ++ used)).
  - apply step_ids_fresh; [exact Hst|]. intros u Hu Hin.
    apply (Hdisj u Hu). apply elem_of_app. now right.
  - apply NoDup_app in Hnd2 as (Hnd2 & Hdisj2 & Hnd3).
    apply NoDup_app. split; [exact Hnd2|]. split.
    + intros x Hx Hx'. apply elem_of_app in Hx' as [Hx' | Hx'].
      * apply (Hdisj x Hx'). apply elem_of_app. now left.
      * now apply (Hdisj2 x Hx).
    + apply NoDup_app. split; [exact Hnd1|]. split; [|exact Hnd3].
      intros x Hx Hx'. apply (Hdisj x Hx). apply elem_of_app. now right.
  - eapply step_keeps_entry; eauto.
Qed.

End Traces.

(** ** The loop around a call that raises *)

Section RetryLoop.

Local Open Scope list_scope.

Variable W : world.
Variables user password : string.
Variable message : mime.
Variable request_id : string.
Variable retries : Z.

Lemma retry_loop_raising :
  always_fails W ->
  forall k fuel attempt delay st,
    retries = attempt + Z.of_nat (S k) ->
    (S k < fuel)%nat ->
    Forall sleep_ok (backoff delay k) ->
    exists e st',
      retry_loop (smtp_session W user password message) request_id retries
                 fuel attempt delay st = Some (Returns tt, st') /\
      smtp W (k + delivery_attempts st)
           (default "smtp.gmail.com" (getenv W "SMTP_SERVER")) (getenv W "SMTP_PORT")
           user password message = Some e /\
      delivery_attempts st' = (S k + delivery_attempts st)%nat /\
      slept st' = slept st ++ backoff delay k /\
      length (stdout st') = (length (stdout st) + S k)%nat /\
      email_status st' = <[request_id := failed e]> (email_status st) /\
      csv_file st' = csv_file st /\ executor st' = executor st.
Proof.
  intros Hfail. induction k as [|k IH]; intros fuel attempt delay st Hr Hf Hsleep.
  - destruct fuel as [|[|fuel]]; try lia. cbn [retry_loop].
    rewrite (proj2 (Z.ltb_lt attempt retries)) by lia.
    unfold smtp_session at 1.
    destruct (smtp W (delivery_attempts st) _ _ _ _ _) as [e|] eqn:E;
      [|now apply Hfail in E].
    cbv beta iota zeta.
    rewrite (proj2 (Z.ltb_ge (attempt + 1) retries)) by lia.
    unfold bind, print, set_email_status. cbn [fst snd].
    exists e. eexists. split; [reflexivity|]. cbn.
    split; [exact E|]. split; [reflexivity|]. split; [now rewrite app_nil_r|].
    split; [rewrite length_app; simpl; lia|]. auto.
  - destruct fuel as [|fuel]; try lia. cbn [retry_loop].
    rewrite (proj2 (Z.ltb_lt attempt retries)) by lia.
    unfold smtp_session at 1.
    destruct (smtp W (delivery_attempts st) _ _ _ _ _) as [e0|] eqn:E;
      [|now apply Hfail in E].
    cbv beta iota zeta.
    rewrite (proj2 (Z.ltb_lt (attempt + 1) retries)) by lia.
    simpl in Hsleep. apply Forall_cons in Hsleep as [[Hd0 Hd1] Hsleep].
    unfold bind, print, sleep. cbn [fst snd].
    rewrite (proj2 (Z.ltb_ge delay 0)) by lia.
    rewrite (proj2 (Z.ltb_ge SLEEP_MAX delay)) by lia.
    match goal with
    | |- context [retry_loop _ _ _ fuel (attempt + 1) (delay * 2) ?s] =>
        destruct (IH fuel (attempt + 1) (delay * 2) s ltac:(lia) ltac:(lia) Hsleep)
          as (e & st' & Hrun & He & Hatt & Hsl & Hout & Hes & Hcsv & Hex)
    end.
    exists e, st'. split; [exact Hrun|]. cbn in He, Hatt, Hsl, Hout, Hes, Hcsv, Hex.
    split; [now replace (S k + delivery_attempts st)%nat
                   with (k + S (delivery_attempts st))%nat by lia|].
    split; [lia|]. split; [now rewrite Hsl, <- app_assoc|].
    split; [rewrite Hout, length_app; simpl; lia|]. auto.
Qed.

Lemma records_for_snoc id rows row :
  head row = Some id ->
  records_for id (rows ++ [row]) = S (records_for id rows).
Proof.
  intros Hrow. unfold records_for. rewrite filter_app, length_app.
  rewrite filter_cons_True by exact Hrow. simpl. lia.
Qed.

End RetryLoop.

(** Called on the bare delivery attempt, which does raise, the loop of
    [send_email_with_retry] makes three attempts with a doubled delay
    between them and then records the failure. *)
Lemma retry_loop_raising_call (W : world) (user password : string) (message : mime)
    (request_id : string) (delay : Z) (st : state) :
  always_fails W ->
  sleep_ok delay -> sleep_ok (delay * 2) ->
  exists e st',
    retry_loop (smtp_session W user password message) request_id 3 (loop_bound 3) 0 delay st
    = Some (Returns tt, st') /\
    delivery_attempts st' = (3 + delivery_attempts st)%nat /\
    slept st' = (slept st ++ [delay; delay * 2])%list /\
    email_status st' !! request_id = Some (failed e).
Proof.
  intros Hfail Hd1 Hd2.
  destruct (retry_loop_raising W user password message request_id 3 Hfail
              2 (loop_bound 3) 0 delay st eq_refl
              ltac:(unfold loop_bound; simpl; lia)
              ltac:(simpl; repeat (apply Forall_cons_2; [assumption|]); apply Forall_nil_2))
    as (e & st' & Hrun & _ & Hatt & Hsl & _ & Hes & _).
  exists e, st'. split; [exact Hrun|]. split; [exact Hatt|]. split; [exact Hsl|].
  rewrite Hes. apply lookup_insert_eq.
Qed.

(** * The claims *)

(** ** Retry dispatcher *)

(** C1, as the code behaves: with a relay that refuses every session (and
    a log that can be written), [send_email_with_retry] with [retries=3]
    makes one delivery attempt, not three; the log gains one record for the
    identifier, not three; the registry maps the identifier to [failed (e)]
    for the reason [e] of that one refusal; nothing is printed and no
    back-off sleep is made. *)
Theorem failing_relay_single_attempt (W : world) (subject recipient body : string)
    (is_html : bool) (request_id sender_email sender_password : string)
    (sender_name cc bcc : option string) (delay : Z) (st : state) :
  always_fails W ->
  log_writable W ->
  exists e st',
    send_email_with_retry W subject recipient body is_html request_id
      sender_email sender_password sender_name cc bcc 3 delay st
    = Some (Returns tt, st') /\
    relay_answer W subject recipient body is_html
      sender_email sender_password sender_name cc bcc st = Some e /\
    delivery_attempts st' = S (delivery_attempts st) /\
    records_for request_id (csv_file st') = S (records_for request_id (csv_file st)) /\
    email_status st' !! request_id = Some (failed e) /\
    stdout st' = stdout st /\ slept st' = slept st.
Proof.
  intros Hfail Hlog. rewrite send_email_with_retry_once by exact Hlog.
  change (0 <? 3) with true. cbv iota. rewrite send_email_state by exact Hlog.
  destruct (relay_answer W subject recipient body is_html sender_email sender_password
              sender_name cc bcc st) as [e|] eqn:E; [|now apply Hfail in E].
  exists e. eexists. split; [reflexivity|]. simpl.
  split; [reflexivity|]. split; [reflexivity|].
  split; [now apply records_for_snoc|].
  split; [apply lookup_insert_eq|]. split; reflexivity.
Qed.

Lemma failing_relay_single_attempt_witness :
  always_fails (sample_world sample_environ (Some "Connection refused")) /\
  log_writable (sample_world sample_environ (Some "Connection refused")) /\
  exists e st',
    send_email_with_retry (sample_world sample_environ (Some "Connection refused"))
      "Hello" "bob@example.org" "Hi Bob" false "id-1"
      "noreply@example.org" "secret" None None None 3 5 initial_state
    = Some (Returns tt, st') /\
    relay_answer (sample_world sample_environ (Some "Connection refused"))
      "Hello" "bob@example.org" "Hi Bob" false
      "noreply@example.org" "secret" None None None initial_state = Some e /\
    delivery_attempts st' = 1%nat /\
    records_for "id-1" (csv_file st') = 1%nat /\
    email_status st' !! "id-1" = Some (failed e) /\
    stdout st' = [] /\ slept st' = [].
Proof.
  split; [|split].
  - intros n server port user password message. simpl. discriminate.
  - intros n row. reflexivity.
  - apply (failing_relay_single_attempt
             (sample_world sample_environ (Some "Connection refused"))
             "Hello" "bob@example.org" "Hi Bob" false "id-1"
             "noreply@example.org" "secret" None None None 5 initial_state).
    + intros n server port user password message. simpl. discriminate.
    + intros n row. reflexivity.
Defined.




(** ** Admission *)

(** C7: a request whose subject, recipient or body is absent or empty is
    answered with HTTP 400 and the description "Missing required fields",
    and the process is left as it was: no job is queued, the registry gains
    no entry and the log gains no row. *)
Theorem missing_fields_rejected (W : world) (data : request_body) (uuid4 : string)
    (st : state) :
  absent_or_empty (get_subject data) \/ absent_or_empty (get_recipient data) \/
  absent_or_empty (get_body data) ->
  handle_send_email W data uuid4 st = (HttpError 400 "Missing required fields", st).
Proof.
  intros H. apply handle_send_email_rejected, validate_missing.
  destruct H as [[-> | ->] | [[-> | ->] | [-> | ->]]]; auto.
Qed.

Lemma missing_fields_rejected_witness :
  (absent_or_empty (get_subject (mkBody (Some "") (Some "bob@example.org") None None None None)) \/
   absent_or_empty (get_recipient (mkBody (Some "") (Some "bob@example.org") None None None None)) \/
   absent_or_empty (get_body (mkBody (Some "") (Some "bob@example.org") None None None None))) /\
  handle_send_email (sample_world sample_environ None)
    (mkBody (Some "") (Some "bob@example.org") None None None None) "id-1" initial_state
  = (HttpError 400 "Missing required fields", initial_state).
Proof.
  split.
  - left. right. reflexivity.
  - apply (missing_fields_rejected (sample_world sample_environ None)
             (mkBody (Some "") (Some "bob@example.org") None None None None)
             "id-1" initial_state).
    left. right. reflexivity.
Defined.

(** C5, as stated, fails at this input: without [USER_EMAIL] the body of
    the answer is [{"error": "Missing user credentials in .env"}], which is
    not [{"error": "Missing user credentials"}]. *)
Lemma missing_credentials_body_counterexample :
  fst (handle_send_email (sample_world {[ "USER_APP_PASSWORD" := "secret" ]} None)
         (sample_request "Hello" "bob@example.org" "Hi Bob") "id-1" initial_state)
  = Jsonify [("error", "Missing user credentials in .env")] 400 /\
  fst (handle_send_email (sample_world {[ "USER_APP_PASSWORD" := "secret" ]} None)
         (sample_request "Hello" "bob@example.org" "Hi Bob") "id-1" initial_state)
  <> Jsonify [("error", "Missing user credentials")] 400.
Proof. split; [reflexivity | discriminate]. Qed.

(** C5, amended: when [USER_EMAIL] or [USER_APP_PASSWORD] is unset or
    empty, a request that passes validation is answered with HTTP 400 and
    the body [{"error": "Missing user credentials in .env"}], and the
    process is left as it was (no job is queued). *)
Theorem missing_credentials_rejected (W : world) (data : request_body) (uuid4 : string)
    (st : state) :
  validate_email_data data = Passed tt ->
  truthy (getenv W "USER_EMAIL") = false \/ truthy (getenv W "USER_APP_PASSWORD") = false ->
  handle_send_email W data uuid4 st =
  (Jsonify [("error", "Missing user credentials in .env")] 400, st).
Proof. apply handle_send_email_no_credentials. Qed.

Lemma missing_credentials_rejected_witness :
  validate_email_data (sample_request "Hello" "bob@example.org" "Hi Bob") = Passed tt /\
  (truthy (getenv (sample_world {[ "USER_EMAIL" := "noreply@example.org" ]} None)
             "USER_EMAIL") = false \/
   truthy (getenv (sample_world {[ "USER_EMAIL" := "noreply@example.org" ]} None)
             "USER_APP_PASSWORD") = false) /\
  handle_send_email (sample_world {[ "USER_EMAIL" := "noreply@example.org" ]} None)
    (sample_request "Hello" "bob@example.org" "Hi Bob") "id-1" initial_state
  = (Jsonify [("error", "Missing user credentials in .env")] 400, initial_state).
Proof.
  split; [reflexivity|]. split; [right; reflexivity|].
  apply (missing_credentials_rejected
           (sample_world {[ "USER_EMAIL" := "noreply@example.org" ]} None)
           (sample_request "Hello" "bob@example.org" "Hi Bob") "id-1" initial_state).
  - reflexivity.
  - right. reflexivity.
Defined.



(** C2, as stated, fails at this input: the request is accepted with
    identifier ["id-1"], admission has written no registry entry for it,
    and the status query that follows answers "Request ID not found". *)
Lemma admission_registers_pending_counterexample :
  fst (handle_send_email (sample_world sample_environ None)
         (sample_request "Hello" "bob@example.org" "Hi Bob") "id-1" initial_state)
  = Jsonify [("message", "Email request processed"); ("request_id", "id-1")] 200 /\
  email_status
    (snd (handle_send_email (sample_world sample_environ None)
            (sample_request "Hello" "bob@example.org" "Hi Bob") "id-1" initial_state))
    !! "id-1" = None /\
  get_email_status "id-1"
    (snd (handle_send_email (sample_world sample_environ None)
            (sample_request "Hello" "bob@example.org" "Hi Bob") "id-1" initial_state))
  = Jsonify [("request_id", "id-1"); ("status", "Request ID not found")] 200.
Proof. repeat split. Qed.

(** C2, amended: admission does not touch the registry; it only queues the
    job.  For an accepted request whose identifier has no entry yet, a
    status query made before the job has run answers "Request ID not
    found"; once a worker has run the job, the query answers ["sent"] or
    [failed (e)]. *)
Theorem admission_registers_nothing (W : world) (data : request_body) (uuid4 : string)
    (st st' : state) (body : list (string * string)) :
  handle_send_email W data uuid4 st = (Jsonify body 200, st') ->
  email_status st !! uuid4 = None ->
  body = [("message", "Email request processed"); ("request_id", uuid4)] /\
  email_status st' = email_status st /\
  (exists j, executor st' = (executor st ++ [j])%list /\ job_request_id j = uuid4) /\
  get_email_status uuid4 st'
  = Jsonify [("request_id", uuid4); ("status", "Request ID not found")] 200 /\
  exists status,
    terminal status /\
    get_email_status uuid4 (worker W (length (executor st)) st')
    = Jsonify [("request_id", uuid4); ("status", status)] 200.
Proof.
  intros Hh Hfresh.
  destruct (handle_send_email_200 W _ _ _ _ _ Hh) as (Hv & He & Hp).
  rewrite (handle_send_email_accepted W data uuid4 st Hv He Hp) in Hh.
  injection Hh as <- <-. simpl.
  split; [reflexivity|]. split; [reflexivity|].
  split; [eexists; split; reflexivity|].
  split; [unfold get_email_status; simpl; now rewrite Hfresh|].
  match goal with |- context [submit ?j st] => set (job0 := j) end.
  assert (Hk : executor (submit job0 st) !! length (executor st) = Some job0).
  { simpl. apply list_lookup_middle. reflexivity. }
  destruct (worker_ran W _ _ _ Hk) as (_ & _ & status & Hterm & Hes & _).
  exists status. split; [exact Hterm|].
  unfold get_email_status. rewrite Hes. unfold job0. simpl.
  now rewrite lookup_insert_eq.
Qed.

Lemma admission_registers_nothing_witness :
  handle_send_email (sample_world sample_environ None)
    (sample_request "Hello" "bob@example.org" "Hi Bob") "id-1" initial_state
  = (Jsonify [("message", "Email request processed"); ("request_id", "id-1")] 200,
     snd (handle_send_email (sample_world sample_environ None)
            (sample_request "Hello" "bob@example.org" "Hi Bob") "id-1" initial_state)) /\
  email_status initial_state !! "id-1" = None /\
  exists status,
    terminal status /\
    get_email_status "id-1"
      (worker (sample_world sample_environ None) (length (executor initial_state))
         (snd (handle_send_email (sample_world sample_environ None)
                 (sample_request "Hello" "bob@example.org" "Hi Bob") "id-1" initial_state)))
    = Jsonify [("request_id", "id-1"); ("status", status)] 200.
Proof.
  split; [reflexivity|]. split; [reflexivity|].
  apply (admission_registers_nothing (sample_world sample_environ None)
           (sample_request "Hello" "bob@example.org" "Hi Bob") "id-1" initial_state
           _ _ eq_refl eq_refl).
Defined.

(** ** Validator *)

(** C4, as stated, fails at these inputs.  ["a@.c"] has one ['@'] and a
    ['.'] in its domain part, and is rejected with "Invalid email format":
    the pattern wants a character between the ['@'] and the ['.'].
    ["a@b.c@d"] has two ['@'] and passes: the match is anchored at the
    start of the string only. *)
Lemma address_claim_counterexample :
  spec_address_shape "a@.c" = true /\
  validate_email_data (sample_request "Hello" "a@.c" "Hi Bob")
  = Aborted 400 "Invalid email format" /\
  spec_address_shape "a@b.c@d" = false /\
  validate_email_data (sample_request "Hello" "a@b.c@d" "Hi Bob") = Passed tt.
Proof. repeat split. Qed.

(** C4, amended: for a non-empty recipient with at most one ['@'] (subject
    and body present), the address check succeeds exactly when the
    recipient is [x@y.z] with [x], [y] and [z] non-empty, that is, a
    non-empty local part and a ['.'] in the domain part that has a
    character before it and a character after it; in that case validation
    goes on to the length check, and otherwise it rejects with HTTP 400
    "Invalid email format". *)
Theorem address_validation (data : request_body) (r : string) :
  get_recipient data = Some r ->
  r <> "" ->
  truthy (get_subject data) = true ->
  truthy (get_body data) = true ->
  (count_char "@" r <= 1)%nat ->
  (EMAIL_REGEX_match r = true <-> address_shape r) /\
  (address_shape r ->
   validate_email_data data =
   if (len (str_of (get_subject data)) >? 255) || (len (str_of (get_body data)) >? 10000)
   then Aborted 400 "Subject or body exceeds character limits"
   else Passed tt) /\
  (~ address_shape r -> validate_email_data data = Aborted 400 "Invalid email format").
Proof.
  intros Hr Hne Hs Hb Hcount.
  pose proof (EMAIL_REGEX_match_one_at r Hcount) as Hiff.
  assert (Htr : truthy (get_recipient data) = true).
  { rewrite Hr. simpl. destruct r; [congruence | reflexivity]. }
  split; [exact Hiff|]. split.
  - intros Hshape. apply validate_good_address; auto.
    rewrite Hr. simpl. now apply Hiff.
  - intros Hshape. apply validate_bad_address; auto.
    rewrite Hr. simpl. destruct (EMAIL_REGEX_match r); [|reflexivity].
    exfalso. now apply Hshape, Hiff.
Qed.

Lemma address_validation_witness :
  get_recipient (sample_request "Hello" "bob@example.org" "Hi Bob") = Some "bob@example.org" /\
  "bob@example.org" <> "" /\
  truthy (get_subject (sample_request "Hello" "bob@example.org" "Hi Bob")) = true /\
  truthy (get_body (sample_request "Hello" "bob@example.org" "Hi Bob")) = true /\
  (count_char "@" "bob@example.org" <= 1)%nat /\
  (EMAIL_REGEX_match "bob@example.org" = true <-> address_shape "bob@example.org") /\
  (address_shape "bob@example.org" ->
   validate_email_data (sample_request "Hello" "bob@example.org" "Hi Bob") =
   if (len (str_of (get_subject (sample_request "Hello" "bob@example.org" "Hi Bob"))) >? 255)
      || (len (str_of (get_body (sample_request "Hello" "bob@example.org" "Hi Bob"))) >? 10000)
   then Aborted 400 "Subject or body exceeds character limits"
   else Passed tt) /\
  (~ address_shape "bob@example.org" ->
   validate_email_data (sample_request "Hello" "bob@example.org" "Hi Bob")
   = Aborted 400 "Invalid email format").
Proof.
  split; [reflexivity|]. split; [discriminate|]. split; [reflexivity|].
  split; [reflexivity|]. split; [vm_compute; lia|].
  apply (address_validation (sample_request "Hello" "bob@example.org" "Hi Bob")
           "bob@example.org").
  - reflexivity.
  - discriminate.
  - reflexivity.
  - reflexivity.
  - vm_compute. lia.
Defined.

(** C6, as stated, fails at these inputs: subject, recipient and body are
    present and within the limits, and the request is rejected, because
    the recipient is not an address; with a subject of 256 characters the
    same request is rejected with the address error, not with the length
    error, because the address is checked first. *)
Lemma length_claim_counterexample :
  len "Hello" <= 255 /\ len "Hi Bob" <= 10000 /\
  handle_send_email (sample_world sample_environ None)
    (sample_request "Hello" "bob" "Hi Bob") "id-1" initial_state
  = (HttpError 400 "Invalid email format", initial_state) /\
  len subject_256 > 255 /\
  handle_send_email (sample_world sample_environ None)
    (sample_request subject_256 "bob" "Hi Bob") "id-1" initial_state
  = (HttpError 400 "Invalid email format", initial_state).
Proof. repeat split; vm_compute; congruence. Qed.

(** C6, amended: for a request whose subject, recipient and body are
    present and non-empty, whose recipient passes the address check, and
    with the sender credentials configured, admission accepts (HTTP 200)
    when the subject has at most 255 characters and the body at most
    10000, and it rejects with HTTP 400 "Subject or body exceeds character
    limits", leaving the process as it was, exactly when the subject has
    more than 255 characters or the body more than 10000. *)
Theorem length_limits (W : world) (data : request_body) (uuid4 : string) (st : state) :
  truthy (get_subject data) = true ->
  truthy (get_recipient data) = true ->
  truthy (get_body data) = true ->
  EMAIL_REGEX_match (str_of (get_recipient data)) = true ->
  truthy (getenv W "USER_EMAIL") = true ->
  truthy (getenv W "USER_APP_PASSWORD") = true ->
  (len (str_of (get_subject data)) <= 255 /\ len (str_of (get_body data)) <= 10000 ->
   fst (handle_send_email W data uuid4 st)
   = Jsonify [("message", "Email request processed"); ("request_id", uuid4)] 200) /\
  (len (str_of (get_subject data)) > 255 \/ len (str_of (get_body data)) > 10000 ->
   handle_send_email W data uuid4 st
   = (HttpError 400 "Subject or body exceeds character limits", st)) /\
  (fst (handle_send_email W data uuid4 st)
   = HttpError 400 "Subject or body exceeds character limits" ->
   len (str_of (get_subject data)) > 255 \/ len (str_of (get_body data)) > 10000).
Proof.
  intros Hs Hr Hb Hm He Hp.
  pose proof (validate_good_address data Hs Hr Hb Hm) as Hv.
  destruct (Z.gtb_spec (len (str_of (get_subject data))) 255) as [H1|H1];
    destruct (Z.gtb_spec (len (str_of (get_body data))) 10000) as [H2|H2];
    simpl in Hv.
  1-3: (split; [intros [? ?]; lia|]; split; [intros _|intros _; lia];
        now apply handle_send_email_rejected).
  rewrite (handle_send_email_accepted W data uuid4 st Hv He Hp). simpl.
  split; [reflexivity|]. split; [intros [?|?]; lia | discriminate].
Qed.

Lemma length_limits_witness :
  truthy (get_subject (sample_request subject_255 "bob@example.org"
                         body_10000)) = true /\
  truthy (get_recipient (sample_request subject_255 "bob@example.org"
                           body_10000)) = true /\
  truthy (get_body (sample_request subject_255 "bob@example.org"
                      body_10000)) = true /\
  EMAIL_REGEX_match (str_of (get_recipient
    (sample_request subject_255 "bob@example.org" body_10000))) = true /\
  truthy (getenv (sample_world sample_environ None) "USER_EMAIL") = true /\
  truthy (getenv (sample_world sample_environ None) "USER_APP_PASSWORD") = true /\
  len subject_255 = 255 /\ len body_10000 = 10000 /\
  fst (handle_send_email (sample_world sample_environ None)
         (sample_request subject_255 "bob@example.org" body_10000)
         "id-1" initial_state)
  = Jsonify [("message", "Email request processed"); ("request_id", "id-1")] 200.
Proof.
  split; [reflexivity|]. split; [reflexivity|]. split; [reflexivity|].
  split; [reflexivity|]. split; [reflexivity|]. split; [reflexivity|].
  split; [vm_compute; reflexivity|]. split; [vm_compute; reflexivity|].
  apply (length_limits (sample_world sample_environ None)
           (sample_request subject_255 "bob@example.org" body_10000)
           "id-1" initial_state); try reflexivity.
  split; vm_compute; congruence.
Defined.

(** ** Status registry *)

(** C8: in every state that the process can reach, and for every
    [request_id], [GET /email-status/<request_id>] answers HTTP 200 with a
    status that is "Request ID not found", ["sent"] or [failed (e)]; an
    identifier without registry entry gets "Request ID not found". *)
Theorem status_query_answers (W : world) (evs : list event) (request_id : string) :
  exists status,
    get_email_status request_id (run W evs initial_state)
    = Jsonify [("request_id", request_id); ("status", status)] 200 /\
    (status = "Request ID not found" \/ terminal status) /\
    (email_status (run W evs initial_state) !! request_id = None ->
     status = "Request ID not found").
Proof.
  pose proof (run_registry_terminal W evs _ initial_registry_terminal) as Hterm.
  unfold get_email_status.
  destruct (email_status (run W evs initial_state) !! request_id) as [s|] eqn:E; simpl.
  - exists s. split; [reflexivity|]. split; [right; eapply Hterm, E | discriminate].
  - exists "Request ID not found". auto.
Qed.

(** C9: when the identifiers drawn by [uuid4] are pairwise distinct, an
    entry of the registry is a terminal status and stays as it is through
    every later request, status query and worker run.  Every queued job
    has no entry yet, and the worker that runs it makes one write: the
    registry after the run is the registry before with the entry of the
    job set to a terminal status. *)
Theorem terminal_status_is_final (W : world) (evs1 evs2 : list event)
    (request_id status : string) :
  NoDup (uuids (evs1 ++ evs2)) ->
  email_status (run W evs1 initial_state) !! request_id = Some status ->
  terminal status /\
  email_status (run W (evs1 ++ evs2) initial_state) !! request_id = Some status /\
  forall k j,
    executor (run W evs1 initial_state) !! k = Some j ->
    email_status (run W evs1 initial_state) !! job_request_id j = None /\
    exists s,
      terminal s /\
      email_status (worker W k (run W evs1 initial_state))
      = <[job_request_id j := s]> (email_status (run W evs1 initial_state)).
Proof.
  intros Hnd Hid. rewrite uuids_app in Hnd.
  pose proof Hnd as Hnd0. apply NoDup_app in Hnd0 as (Hnd1 & Hdisj & Hnd2).
  assert (Hfresh : ids_fresh (reverse (uuids evs1) ++ []) (run W evs1 initial_state)).
  { apply run_ids_fresh; [apply initial_ids_fresh | now rewrite app_nil_r]. }
  split; [|split].
  - eapply (run_registry_terminal W evs1 _ initial_registry_terminal), Hid.
  - rewrite run_app. eapply run_keeps_entry; [exact Hfresh | | exact Hid].
    rewrite app_nil_r. apply NoDup_app. split; [exact Hnd2|]. split.
    + intros x Hx Hx'. rewrite elem_of_reverse in Hx'. now apply (Hdisj x Hx').
    + now rewrite reverse_Permutation.
  - intros k j Hk. destruct Hfresh as (_ & Hnone & _). split.
    + apply Hnone. unfold queued_ids. apply list_elem_of_fmap. exists j.
      split; [reflexivity|]. eapply list_elem_of_lookup_2, Hk.
    + destruct (worker_ran W k _ j Hk) as (_ & _ & s & Hs & Hes & _). exists s. now split.
Qed.

Lemma terminal_status_is_final_witness :
  NoDup (uuids ([POST_send_email (sample_request "Hello" "bob@example.org" "Hi Bob") "id-1";
                 WORKER 0] ++
                [POST_send_email (sample_request "Again" "eve@example.org" "Hi Eve") "id-2";
                 GET_email_status "id-1"; WORKER 0; WORKER 0])) /\
  email_status
    (run (sample_world sample_environ None)
       [POST_send_email (sample_request "Hello" "bob@example.org" "Hi Bob") "id-1"; WORKER 0]
       initial_state) !! "id-1" = Some "sent" /\
  email_status
    (run (sample_world sample_environ None)
       ([POST_send_email (sample_request "Hello" "bob@example.org" "Hi Bob") "id-1";
         WORKER 0] ++
        [POST_send_email (sample_request "Again" "eve@example.org" "Hi Eve") "id-2";
         GET_email_status "id-1"; WORKER 0; WORKER 0])
       initial_state) !! "id-1" = Some "sent".
Proof.
  split; [vm_compute; apply NoDup_cons; split;
          [intros H; apply list_elem_of_singleton in H; discriminate
          | apply NoDup_singleton]|].
  split; [reflexivity|].
  apply (terminal_status_is_final (sample_world sample_environ None)
           [POST_send_email (sample_request "Hello" "bob@example.org" "Hi Bob") "id-1";
            WORKER 0]
           [POST_send_email (sample_request "Again" "eve@example.org" "Hi Eve") "id-2";
            GET_email_status "id-1"; WORKER 0; WORKER 0]
           "id-1" "sent").
  - vm_compute. apply NoDup_cons. split;
      [intros H; apply list_elem_of_singleton in H; discriminate | apply NoDup_singleton].
  - reflexivity.
Defined.

(** * Further properties *)

(** ** Strings *)

Section ValidatorFacts.

Lemma string_length_list (s : string) :
  String.length s = length (list_ascii_of_string s).
Proof. induction s as [|c s IH]; simpl; [reflexivity | now rewrite IH]. Qed.

Lemma string_app_assoc (a b c : string) : ((a +:+ b) +:+ c) = (a +:+ (b +:+ c)).
Proof.
  apply string_eq_list. rewrite !list_ascii_of_string_app. now rewrite <- app_assoc.
Qed.

Lemma domain_part_app (x q : string) :
  count_char "@" x = 0%nat -> domain_part (x +:+ String "@" q) = q.
Proof.
  induction x as [|c x IH]; intros Hx; simpl.
  - reflexivity.
  - unfold count_char in Hx. simpl in Hx. rewrite filter_cons in Hx.
    destruct (decide (c = "@"%char)) as [->|Hne]; [discriminate|].
    destruct (Ascii.eqb_spec c "@"); [congruence|]. apply IH. exact Hx.
Qed.

End ValidatorFacts.

(** ** The address pattern *)

(** [EMAIL_REGEX.match] accepts a recipient exactly when the recipient
    starts with an [x@y.z] ([x], [y], [z] non-empty and free of ['@']).
    What follows that prefix is not looked at: every extension of an
    accepted recipient is accepted. *)
Theorem address_match_is_prefix_match (r : string) :
  (EMAIL_REGEX_match r = true <->
   exists p rest : string, r = p ++ rest /\ address_shape p) /\
  (forall rest : string, EMAIL_REGEX_match r = true -> EMAIL_REGEX_match (r ++ rest) = true).
Proof.
  split; [apply EMAIL_REGEX_match_prefix|].
  intros rest H. apply EMAIL_REGEX_match_prefix in H as (p & rest0 & -> & Hp).
  apply EMAIL_REGEX_match_prefix. exists p, (rest0 ++ rest).
  split; [apply string_app_assoc | exact Hp].
Qed.

(** A recipient that [EMAIL_REGEX.match] accepts has at least five
    characters, does not start with ['@'], contains an ['@'], and has a
    ['.'] after its first ['@']. *)
Theorem address_match_needs (r : string) :
  EMAIL_REGEX_match r = true ->
  5 <= len r /\
  (forall q : string, r <> String "@" q) /\
  (1 <= count_char "@" r)%nat /\
  (1 <= count_char "." (domain_part r))%nat.
Proof.
  intros H. apply EMAIL_REGEX_match_prefix in H
    as (p & rest & -> & x & y & z & -> & Hx & Hy & Hz & Ax & Ay & Az).
  assert (Hlen : forall s : string, s <> "" -> (1 <= String.length s)%nat).
  { intros [|c s] Hs; [congruence | simpl; lia]. }
  pose proof (Hlen x Hx). pose proof (Hlen y Hy). pose proof (Hlen z Hz).
  change (x ++ "@" ++ y ++ "." ++ z) with (x +:+ String "@" (y +:+ String "." z)).
  split; [|split; [|split]].
  - unfold len. rewrite !string_length_list, !list_ascii_of_string_app. simpl.
    rewrite !list_ascii_of_string_app. simpl.
    rewrite !length_app. simpl. rewrite !length_app. simpl.
    rewrite <- !string_length_list. lia.
  - intros q E. destruct x as [|c x]; [congruence|].
    injection E as -> _. apply count_char_zero in Ax. apply Ax. simpl. left.
  - rewrite !count_char_app.
    change (String "@" (y +:+ String "." z)) with ("@" +:+ (y +:+ String "." z)).
    rewrite count_char_app. change (count_char "@" "@") with 1%nat. lia.
  - rewrite string_app_assoc.
    change (String "@" (y +:+ String "." z) +:+ rest)
      with (String "@" ((y +:+ String "." z) +:+ rest)).
    rewrite domain_part_app by exact Ax.
    rewrite !count_char_app.
    change (String "." z) with ("." +:+ z). rewrite count_char_app.
    change (count_char "." ".") with 1%nat. lia.
Qed.

Lemma address_match_needs_witness :
  EMAIL_REGEX_match "a@b.c" = true /\
  5 <= len "a@b.c" /\
  (forall q : string, "a@b.c" <> String "@" q) /\
  (1 <= count_char "@" "a@b.c")%nat /\
  (1 <= count_char "." (domain_part "a@b.c"))%nat.
Proof.
  split; [reflexivity|]. apply (address_match_needs "a@b.c"). reflexivity.
Defined.

(** ** The retry loop around an arbitrary call *)

(** The loop of [send_email_with_retry] (lines 93-106) ends for every call
    that it is wrapped around.  With [retries <= 0] the call is not made
    and nothing changes; when the first call returns normally the loop
    ends with the state that the call left. *)
Theorem retry_loop_ends (call : M unit) (request_id : string) (retries delay : Z) (st : state) :
  (exists result,
     retry_loop call request_id retries (loop_bound retries) 0 delay st = Some result) /\
  (retries <= 0 ->
   retry_loop call request_id retries (loop_bound retries) 0 delay st
   = Some (Returns tt, st)) /\
  (forall st1, 0 < retries -> call st = (Returns tt, st1) ->
   retry_loop call request_id retries (loop_bound retries) 0 delay st
   = Some (Returns tt, st1)).
Proof.
  split; [|split].
  - destruct (retry_loop call request_id retries (loop_bound retries) 0 delay st)
      as [result|] eqn:E; [now exists result|].
    exfalso. revert E. apply retry_loop_terminates. unfold loop_bound. lia.
  - intros Hle. unfold loop_bound. cbn [retry_loop].
    now rewrite (proj2 (Z.ltb_ge 0 retries)) by lia.
  - intros st1 Hlt Hcall. unfold loop_bound. cbn [retry_loop].
    rewrite (proj2 (Z.ltb_lt 0 retries)) by lia. now rewrite Hcall.
Qed.

(** Around a call that raises every time (here the bare delivery attempt
    against a relay that refuses every session) the loop of
    [send_email_with_retry] with [retries = n >= 1], when each of the
    delays [delay], [2 * delay], [4 * delay], ... of its [n - 1] sleeps is
    one that [time.sleep] takes (not negative, not beyond [SLEEP_MAX]),
    makes [n] attempts, sleeps [n - 1] times for those delays, prints one
    line per attempt, and then records [failed (e)] for the reason [e] of
    the last attempt. *)
Theorem retry_backoff_schedule (W : world) (user password : string) (message : mime)
    (request_id : string) (n : nat) (delay : Z) (st : state) :
  always_fails W ->
  (1 <= n)%nat ->
  Forall sleep_ok (backoff delay (n - 1)) ->
  exists e st',
    retry_loop (smtp_session W user password message) request_id (Z.of_nat n)
               (loop_bound (Z.of_nat n)) 0 delay st = Some (Returns tt, st') /\
    smtp W (n - 1 + delivery_attempts st)
         (default "smtp.gmail.com" (getenv W "SMTP_SERVER")) (getenv W "SMTP_PORT")
         user password message = Some e /\
    delivery_attempts st' = (n + delivery_attempts st)%nat /\
    slept st' = (slept st ++ backoff delay (n - 1))%list /\
    length (stdout st') = (length (stdout st) + n)%nat /\
    email_status st' = <[request_id := failed e]> (email_status st).
Proof.
  intros Hfail Hn Hsleep. destruct n as [|k]; [lia|].
  replace (S k - 1)%nat with k in Hsleep by lia.
  destruct (retry_loop_raising W user password message request_id (Z.of_nat (S k)) Hfail
              k (loop_bound (Z.of_nat (S k))) 0 delay st)
    as (e & st' & Hrun & He & Hatt & Hsl & Hout & Hes & _).
  - lia.
  - unfold loop_bound. lia.
  - exact Hsleep.
  - exists e, st'. replace (S k - 1)%nat with k by lia. auto 10.
Qed.

Lemma retry_backoff_schedule_witness :
  always_fails (sample_world sample_environ (Some "Connection refused")) /\
  (1 <= 4)%nat /\
  Forall sleep_ok (backoff 5 (4 - 1)) /\
  exists e st',
    retry_loop (smtp_session (sample_world sample_environ (Some "Connection refused"))
                  "noreply@example.org" "secret"
                  (compose_message "Hello" "bob@example.org" "Hi Bob" false
                     "noreply@example.org" None None None))
               "id-1" (Z.of_nat 4) (loop_bound (Z.of_nat 4)) 0 5 initial_state
    = Some (Returns tt, st') /\
    smtp (sample_world sample_environ (Some "Connection refused"))
         (4 - 1 + delivery_attempts initial_state)
         (default "smtp.gmail.com"
            (getenv (sample_world sample_environ (Some "Connection refused")) "SMTP_SERVER"))
         (getenv (sample_world sample_environ (Some "Connection refused")) "SMTP_PORT")
         "noreply@example.org" "secret"
         (compose_message "Hello" "bob@example.org" "Hi Bob" false
            "noreply@example.org" None None None) = Some e /\
    delivery_attempts st' = (4 + delivery_attempts initial_state)%nat /\
    slept st' = (slept initial_state ++ backoff 5 (4 - 1))%list /\
    length (stdout st') = (length (stdout initial_state) + 4)%nat /\
    email_status st' = <[ "id-1" := failed e]> (email_status initial_state).
Proof.
  split; [intros n server port user password message; simpl; discriminate|].
  split; [lia|].
  split; [repeat constructor; unfold SLEEP_MAX; lia|].
  apply (retry_backoff_schedule (sample_world sample_environ (Some "Connection refused"))
           "noreply@example.org" "secret"
           (compose_message "Hello" "bob@example.org" "Hi Bob" false
              "noreply@example.org" None None None)
           "id-1" 4 5 initial_state).
  - intros n server port user password message. simpl. discriminate.
  - lia.
  - repeat constructor; unfold SLEEP_MAX; lia.
Defined.

(** ** Steps of the process, case by case *)

Section StepFacts.

Local Open Scope list_scope.

Variable W : world.

(** A step leaves the state as it is, or queues one job, or runs one
    queued job. *)
Lemma step_cases ev st :
  (accepted W ev = false /\ step W ev st = st) \/
  (accepted W ev = true /\
   exists j, step W ev st = submit j st /\ uuids [ev] = [job_request_id j]) \/
  (accepted W ev = false /\
   exists k j,
     ev = WORKER k /\ executor st !! k = Some j /\ job_ran W j k st (step W ev st)).
Proof.
  destruct ev as [data u | id | k]; simpl.
  - unfold admitted. destruct (validate_email_data data) as [[]|code description] eqn:Hv.
    + destruct (truthy (getenv W "USER_EMAIL")) eqn:He;
        [destruct (truthy (getenv W "USER_APP_PASSWORD")) eqn:Hp|]; simpl.
      * right. left. split; [reflexivity|].
        rewrite (handle_send_email_accepted W data u st Hv He Hp). simpl.
        eexists. split; reflexivity.
      * left. split; [reflexivity|].
        now rewrite (handle_send_email_no_credentials W data u st Hv (or_intror Hp)).
      * left. split; [reflexivity|].
        now rewrite (handle_send_email_no_credentials W data u st Hv (or_introl He)).
    + left. split; [reflexivity|].
      now rewrite (handle_send_email_rejected W data u st code description Hv).
  - left. auto.
  - destruct (executor st !! k) as [j|] eqn:Hk.
    + right. right. split; [reflexivity|].
      exists k, j. split; [reflexivity|]. split; [exact Hk|]. now apply worker_ran.
    + left. split; [reflexivity | now apply worker_idle].
Qed.

Lemma uuids_snoc_NoDup evs ev : NoDup (uuids (evs ++ [ev])) -> NoDup (uuids evs).
Proof. rewrite uuids_app. intros H. now apply NoDup_app in H as (H & _ & _). Qed.

(** The state after a trace with distinct identifiers keeps identifiers
    fresh. *)
Lemma reach_ids_fresh evs :
  NoDup (uuids evs) -> ids_fresh (reverse (uuids evs)) (run W evs initial_state).
Proof.
  intros Hnd. rewrite <- (app_nil_r (reverse (uuids evs))).
  apply run_ids_fresh; [apply initial_ids_fresh | now rewrite app_nil_r].
Qed.

Lemma queued_has_no_entry used st k j :
  ids_fresh used st -> executor st !! k = Some j ->
  email_status st !! job_request_id j = None.
Proof.
  intros (_ & Hnone & _) Hk. apply Hnone. unfold queued_ids.
  apply list_elem_of_fmap. exists j. split; [reflexivity|].
  eapply list_elem_of_lookup_2, Hk.
Qed.

Lemma records_for_snoc_ne request_id rows row :
  head row <> Some request_id ->
  records_for request_id (rows ++ [row]) = records_for request_id rows.
Proof.
  intros Hrow. unfold records_for. rewrite filter_app, length_app.
  rewrite filter_cons_False by exact Hrow. simpl. lia.
Qed.

Lemma records_for_pos request_id rows :
  (1 <= records_for request_id rows)%nat ->
  exists row, row ∈ rows /\ head row = Some request_id.
Proof.
  unfold records_for. intros H.
  destruct (filter (fun row => head row = Some request_id) rows) as [|row l] eqn:E;
    [simpl in H; lia|].
  assert (Hin : row ∈ filter (fun row => head row = Some request_id) rows)
    by (rewrite E; left).
  apply list_elem_of_filter in Hin as [Hh Hin]. eauto.
Qed.

Lemma accepted_posts_snoc evs ev :
  accepted_posts W (evs ++ [ev]) =
  (accepted_posts W evs + if accepted W ev then 1 else 0)%nat.
Proof.
  unfold accepted_posts. rewrite filter_app, length_app. f_equal.
  destruct (accepted W ev) eqn:E.
  - now rewrite filter_cons_True by exact E.
  - rewrite filter_cons_False; [reflexivity | congruence].
Qed.

(** Whatever the identifiers, a step keeps an identifier that has a
    terminal status in that condition. *)
Lemma step_keeps_terminal ev st id :
  has_terminal_status id st -> has_terminal_status id (step W ev st).
Proof.
  intros (s & Hs & Hid).
  destruct (step_cases ev st)
    as [(_ & ->) | [(_ & j & -> & _) | (_ & k & j & _ & _ & _ & _ & s' & Hs' & Hes & _)]].
  - now exists s.
  - now exists s.
  - unfold has_terminal_status. rewrite Hes, lookup_insert. case_decide.
    + now exists s'.
    + now exists s.
Qed.

Lemma run_keeps_terminal evs : forall st id,
  has_terminal_status id st -> has_terminal_status id (run W evs st).
Proof.
  induction evs as [|ev evs IH]; intros st id H; [exact H|].
  rewrite run_cons. apply IH. now apply step_keeps_terminal.
Qed.

Lemma terminal_not_missing status : terminal status -> status <> "Request ID not found".
Proof. intros [-> | (e & ->)]; discriminate. Qed.

Lemma failed_inj e1 e2 : failed e1 = failed e2 -> e1 = e2.
Proof.
  unfold failed. intros H. apply String.app_inj in H.
  apply (f_equal list_ascii_of_string) in H.
  rewrite !list_ascii_of_string_app in H. apply app_inv_tail in H.
  now apply string_eq_list.
Qed.

End StepFacts.

(** ** The log *)

(** The log is append-only: along every trace, from every state, the rows
    present at one moment are a prefix of the rows at every later moment;
    and start-up keeps a log file that exists as it is. *)
Theorem log_is_append_only (W : world) (evs1 evs2 : list event) (st : state) :
  initialize_csv_log (Some (csv_file st)) = csv_file st /\
  csv_file (run W evs1 st) `prefix_of` csv_file (run W (evs1 ++ evs2) st).
Proof.
  split; [reflexivity|]. rewrite run_app. generalize (run W evs1 st). clear st evs1.
  induction evs2 as [|ev evs IH]; intros st; [reflexivity|].
  rewrite run_cons. etrans; [|apply IH].
  destruct (step_cases W ev st)
    as [(_ & ->) | [(_ & j & -> & _) |
        (_ & k & j & _ & _ & _ & _ & s & _ & _ & [-> | (date & ->)] & _)]];
    simpl; [reflexivity | reflexivity | reflexivity | now apply prefix_app_r].
Qed.

(** Every row of the log has the six columns of the header: the optional
    seventh column (error details) is never written, since [send_email]
    never passes it. *)
Theorem log_rows_have_six_columns (W : world) (evs : list event) (row : list string) :
  row ∈ csv_file (run W evs initial_state) -> length row = 6%nat.
Proof.
  revert row. induction evs as [|ev evs IH] using rev_ind; intros row Hrow.
  - apply list_elem_of_singleton in Hrow as ->. reflexivity.
  - rewrite run_snoc in Hrow.
    destruct (step_cases W ev (run W evs initial_state))
      as [(_ & E) | [(_ & j & E & _) |
          (_ & k & j & _ & _ & _ & _ & s & _ & _ & [E | (date & E)] & _)]];
      rewrite E in Hrow; simpl in Hrow; [now apply IH | now apply IH | now apply IH |].
    apply elem_of_app in Hrow as [Hrow | Hrow]; [now apply IH|].
    apply list_elem_of_singleton in Hrow as ->. reflexivity.
Qed.

Lemma log_rows_have_six_columns_witness :
  ["id-1"; "noreply@example.org"; "bob@example.org"; "Hello"; "2024-05-01 12:00:00"; "sent"]
    ∈ csv_file (run (sample_world sample_environ None)
                  [POST_send_email (sample_request "Hello" "bob@example.org" "Hi Bob") "id-1";
                   WORKER 0] initial_state) /\
  length ["id-1"; "noreply@example.org"; "bob@example.org"; "Hello";
          "2024-05-01 12:00:00"; "sent"] = 6%nat.
Proof.
  split; [right; left|].
  apply (log_rows_have_six_columns (sample_world sample_environ None)
           [POST_send_email (sample_request "Hello" "bob@example.org" "Hi Bob") "id-1";
            WORKER 0]).
  right. left.
Defined.

(** ** Accounting of jobs *)

(** With distinct identifiers no accepted request is lost or counted
    twice: whenever no worker is in the middle of a job, the registry
    entries plus the queued jobs are as many as the requests accepted so
    far. *)
Theorem no_request_lost (W : world) (evs : list event) :
  NoDup (uuids evs) ->
  (size (email_status (run W evs initial_state))
   + length (executor (run W evs initial_state)))%nat = accepted_posts W evs.
Proof.
  intros Hnd. induction evs as [|ev evs IH] using rev_ind; [reflexivity|].
  pose proof (uuids_snoc_NoDup evs ev Hnd) as Hnd'. specialize (IH Hnd').
  pose proof (reach_ids_fresh W evs Hnd') as Hfresh.
  rewrite run_snoc, accepted_posts_snoc.
  destruct (step_cases W ev (run W evs initial_state))
    as [(-> & ->) | [(-> & j & -> & _) |
        (-> & k & j & _ & Hk & Hex & _ & s & _ & Hes & _)]].
  - lia.
  - simpl. rewrite length_app. simpl. lia.
  - rewrite Hex, Hes, length_delete by eauto.
    rewrite map_size_insert_None by (eapply queued_has_no_entry; eauto).
    apply lookup_lt_Some in Hk. lia.
Qed.

Ltac solve_NoDup :=
  vm_compute;
  repeat (apply NoDup_cons; split;
          [let H := fresh in
           intros H; repeat (apply elem_of_cons in H as [H|H]; [discriminate|]);
           inversion H|]);
  apply NoDup_nil_2.

Lemma no_request_lost_witness :
  NoDup (uuids [POST_send_email (sample_request "Hello" "bob@example.org" "Hi Bob") "id-1";
                POST_send_email (sample_request "Hello" "bob" "Hi Bob") "id-2";
                POST_send_email (sample_request "Again" "eve@example.org" "Hi Eve") "id-3";
                WORKER 1]) /\
  (size (email_status
           (run (sample_world sample_environ None)
              [POST_send_email (sample_request "Hello" "bob@example.org" "Hi Bob") "id-1";
               POST_send_email (sample_request "Hello" "bob" "Hi Bob") "id-2";
               POST_send_email (sample_request "Again" "eve@example.org" "Hi Eve") "id-3";
               WORKER 1] initial_state))
   + length (executor
               (run (sample_world sample_environ None)
                  [POST_send_email (sample_request "Hello" "bob@example.org" "Hi Bob") "id-1";
                   POST_send_email (sample_request "Hello" "bob" "Hi Bob") "id-2";
                   POST_send_email (sample_request "Again" "eve@example.org" "Hi Eve") "id-3";
                   WORKER 1] initial_state)))%nat
  = accepted_posts (sample_world sample_environ None)
      [POST_send_email (sample_request "Hello" "bob@example.org" "Hi Bob") "id-1";
       POST_send_email (sample_request "Hello" "bob" "Hi Bob") "id-2";
       POST_send_email (sample_request "Again" "eve@example.org" "Hi Eve") "id-3";
       WORKER 1].
Proof.
  split; [solve_NoDup|].
  apply (no_request_lost (sample_world sample_environ None)
           [POST_send_email (sample_request "Hello" "bob@example.org" "Hi Bob") "id-1";
            POST_send_email (sample_request "Hello" "bob" "Hi Bob") "id-2";
            POST_send_email (sample_request "Again" "eve@example.org" "Hi Eve") "id-3";
            WORKER 1]).
  solve_NoDup.
Defined.

(** ** Registry and log *)

Section Agreement.

Local Open Scope list_scope.

Variable W : world.

Lemma reach_log_within_registry evs id :
  NoDup (uuids evs) -> id <> "Request ID" ->
  log_within_registry id (run W evs initial_state).
Proof.
  intros Hnd Hid. induction evs as [|ev evs IH] using rev_ind.
  - split.
    + intros row Hrow Hhead. apply list_elem_of_singleton in Hrow as ->.
      simpl in Hhead. congruence.
    + simpl. rewrite lookup_empty. unfold records_for.
      rewrite filter_cons_False; [reflexivity|]. simpl. congruence.
  - pose proof (uuids_snoc_NoDup evs ev Hnd) as Hnd'. specialize (IH Hnd').
    pose proof (reach_ids_fresh W evs Hnd') as Hfresh.
    rewrite run_snoc. destruct IH as (IHrow & IHcount).
    destruct (step_cases W ev (run W evs initial_state))
      as [(_ & ->) | [(_ & j & -> & _) |
          (_ & k & j & _ & Hk & _ & _ & s & _ & Hes & Hcsv & _)]];
      [now split | now split |].
    pose proof (queued_has_no_entry _ _ _ _ Hfresh Hk) as Hnone.
    unfold log_within_registry. rewrite Hes.
    destruct (decide (job_request_id j = id)) as [E | E].
    + subst id. rewrite Hnone in IHcount. rewrite lookup_insert_eq.
      destruct Hcsv as [-> | (date & ->)]; split.
      * intros row Hrow Hhead.
        destruct (IHrow row Hrow Hhead) as (? & ? & ? & ? & ? & _ & Hsome). congruence.
      * lia.
      * intros row Hrow Hhead. apply elem_of_app in Hrow as [Hrow | Hrow].
        -- destruct (IHrow row Hrow Hhead) as (? & ? & ? & ? & ? & _ & Hsome). congruence.
        -- apply list_elem_of_singleton in Hrow as ->.
           do 5 eexists. split; reflexivity.
      * rewrite records_for_snoc by reflexivity. lia.
    + rewrite lookup_insert_ne by exact E.
      destruct Hcsv as [-> | (date & ->)]; split; auto.
      * intros row Hrow Hhead. apply elem_of_app in Hrow as [Hrow | Hrow].
        -- now apply IHrow.
        -- apply list_elem_of_singleton in Hrow as ->. simpl in Hhead. congruence.
      * rewrite records_for_snoc_ne; [exact IHcount|]. simpl. congruence.
Qed.

Lemma reach_registry_within_log evs id :
  log_writable W ->
  NoDup (uuids evs) -> id <> "Request ID" ->
  registry_within_log id (run W evs initial_state).
Proof.
  intros Hlog Hnd Hid. induction evs as [|ev evs IH] using rev_ind.
  - intros [s Hs]. simpl in Hs. now rewrite lookup_empty in Hs.
  - pose proof (uuids_snoc_NoDup evs ev Hnd) as Hnd'. specialize (IH Hnd').
    pose proof (reach_ids_fresh W evs Hnd') as Hfresh.
    pose proof (reach_log_within_registry evs id Hnd' Hid) as (_ & Hcount).
    rewrite run_snoc.
    destruct (step_cases W ev (run W evs initial_state))
      as [(_ & ->) | [(_ & j & -> & _) |
          (_ & k & j & _ & Hk & _ & _ & s & _ & Hes & _ & Hw)]];
      [exact IH | exact IH |].
    destruct (Hw Hlog) as ((date & Hcsv) & _).
    pose proof (queued_has_no_entry _ _ _ _ Hfresh Hk) as Hnone.
    unfold registry_within_log. rewrite Hes, Hcsv.
    destruct (decide (job_request_id j = id)) as [E | E].
    + subst id. rewrite Hnone in Hcount. intros _.
      rewrite records_for_snoc by reflexivity. lia.
    + rewrite lookup_insert_ne by exact E. intros Hsome.
      rewrite records_for_snoc_ne; [now apply IH|]. simpl. congruence.
Qed.

End Agreement.

(** With distinct identifiers, in a process started with a new log file
    and whenever no worker is in the middle of a job, the log never says
    more than the registry: a row for an identifier (other than the text
    of the header) ends in the registered status of that identifier, and
    there is at most one row per identifier.  When the log can be written
    the converse holds too: a registered identifier has its row. *)
Theorem registry_matches_log (W : world) (evs : list event) (id : string) :
  NoDup (uuids evs) ->
  id <> "Request ID" ->
  (forall sender recipient subject date status,
     [id; sender; recipient; subject; date; status] ∈ csv_file (run W evs initial_state) ->
     email_status (run W evs initial_state) !! id = Some status) /\
  (records_for id (csv_file (run W evs initial_state)) <= 1)%nat /\
  (log_writable W ->
   forall status,
     email_status (run W evs initial_state) !! id = Some status ->
     exists sender recipient subject date,
       [id; sender; recipient; subject; date; status] ∈ csv_file (run W evs initial_state)).
Proof.
  intros Hnd Hid.
  destruct (reach_log_within_registry W evs id Hnd Hid) as (Hrow & Hcount).
  split; [|split].
  - intros se re su da status Hin.
    destruct (Hrow _ Hin eq_refl) as (? & ? & ? & ? & s' & E & Hs').
    injection E as _ _ _ _ ->. exact Hs'.
  - destruct (email_status (run W evs initial_state) !! id); lia.
  - intros Hlog status Hs.
    pose proof (reach_registry_within_log W evs id Hlog Hnd Hid ltac:(eauto)) as Hone.
    destruct (records_for_pos id _ ltac:(rewrite Hone; lia)) as (row & Hin & Hhead).
    destruct (Hrow row Hin Hhead) as (se & re & su & da & s' & -> & Hs').
    assert (s' = status) as -> by congruence. eauto.
Qed.

Lemma registry_matches_log_witness :
  NoDup (uuids [POST_send_email (sample_request "Hello" "bob@example.org" "Hi Bob") "id-1";
                WORKER 0]) /\
  "id-1" <> "Request ID" /\
  (records_for "id-1"
     (csv_file
        (run (sample_world sample_environ None)
           [POST_send_email (sample_request "Hello" "bob@example.org" "Hi Bob") "id-1";
            WORKER 0] initial_state)) <= 1)%nat.
Proof.
  split; [solve_NoDup|]. split; [discriminate|].
  apply (registry_matches_log (sample_world sample_environ None)
           [POST_send_email (sample_request "Hello" "bob@example.org" "Hi Bob") "id-1";
            WORKER 0] "id-1").
  - solve_NoDup.
  - discriminate.
Defined.

(** ** Status queries *)

(** The three kinds of answer of [GET /email-status] cannot be confused:
    in every reachable state the answer is "Request ID not found" exactly
    when the identifier has no registry entry; a failure status is never
    ["sent"], and the reason can be read back from it. *)
Theorem status_answers_are_unambiguous (W : world) (evs : list event) (request_id : string) :
  (get_email_status request_id (run W evs initial_state)
   = Jsonify [("request_id", request_id); ("status", "Request ID not found")] 200 <->
   email_status (run W evs initial_state) !! request_id = None) /\
  (forall e, failed e <> "sent" /\ failed e <> "Request ID not found") /\
  (forall e1 e2, failed e1 = failed e2 -> e1 = e2).
Proof.
  split; [|split; [intros e; split; discriminate | apply failed_inj]].
  unfold get_email_status.
  destruct (email_status (run W evs initial_state) !! request_id) as [s|] eqn:E; simpl.
  - split; [|discriminate]. intros [= Hs]. exfalso.
    eapply terminal_not_missing; [|exact Hs].
    eapply (run_registry_terminal W evs _ initial_registry_terminal), E.
  - split; reflexivity.
Qed.

(** Even when identifiers repeat, an identifier that has a terminal status
    keeps one through every later request, query and worker run: entries
    are never deleted and never set to anything but ["sent"] or
    [failed (e)]. *)
Theorem terminal_status_is_kept (W : world) (evs : list event) (st : state)
    (request_id : string) :
  has_terminal_status request_id st ->
  has_terminal_status request_id (run W evs st).
Proof. apply run_keeps_terminal. Qed.

Lemma terminal_status_is_kept_witness :
  has_terminal_status "id-1"
    (run (sample_world sample_environ None)
       [POST_send_email (sample_request "Hello" "bob@example.org" "Hi Bob") "id-1"; WORKER 0]
       initial_state) /\
  has_terminal_status "id-1"
    (run (sample_world sample_environ (Some "Connection refused"))
       [POST_send_email (sample_request "Again" "bob@example.org" "Hi Bob") "id-1"; WORKER 0]
       (run (sample_world sample_environ None)
          [POST_send_email (sample_request "Hello" "bob@example.org" "Hi Bob") "id-1";
           WORKER 0]
          initial_state)).
Proof.
  assert (H : has_terminal_status "id-1"
                (run (sample_world sample_environ None)
                   [POST_send_email (sample_request "Hello" "bob@example.org" "Hi Bob") "id-1";
                    WORKER 0] initial_state)).
  { exists "sent". split; [now left | reflexivity]. }
  split; [exact H|].
  apply (terminal_status_is_kept (sample_world sample_environ (Some "Connection refused"))
           [POST_send_email (sample_request "Again" "bob@example.org" "Hi Bob") "id-1";
            WORKER 0] _ "id-1" H).
Defined.

(** ** Workers *)

(** When workers take the job at the head of the queue as many times as
    there are queued jobs, the queue is empty afterwards and every job
    that was queued has a terminal status.  Per job between one and three
    delivery attempts were made and at most one row was written; when the
    log can be written, it is exactly one attempt and one row per job, and
    nothing was printed or slept. *)
Theorem workers_drain_the_queue (W : world) (st : state) :
  executor (run W (replicate (length (executor st)) (WORKER 0)) st) = [] /\
  (forall j, j ∈ executor st ->
     has_terminal_status (job_request_id j)
       (run W (replicate (length (executor st)) (WORKER 0)) st)) /\
  (delivery_attempts st + length (executor st)
   <= delivery_attempts (run W (replicate (length (executor st)) (WORKER 0)) st)
   <= delivery_attempts st + 3 * length (executor st))%nat /\
  (length (csv_file st)
   <= length (csv_file (run W (replicate (length (executor st)) (WORKER 0)) st))
   <= length (csv_file st) + length (executor st))%nat /\
  (log_writable W ->
   delivery_attempts (run W (replicate (length (executor st)) (WORKER 0)) st)
   = (delivery_attempts st + length (executor st))%nat /\
   length (csv_file (run W (replicate (length (executor st)) (WORKER 0)) st))
   = (length (csv_file st) + length (executor st))%nat /\
   stdout (run W (replicate (length (executor st)) (WORKER 0)) st) = stdout st /\
   slept (run W (replicate (length (executor st)) (WORKER 0)) st) = slept st).
Proof.
  remember (length (executor st)) as n eqn:Hn. revert st Hn.
  induction n as [|n IH]; intros st Hn.
  - destruct (executor st) eqn:E; [|discriminate]. simpl.
    split; [exact E|]. split; [intros j Hj; inversion Hj|].
    split; [lia|]. split; [lia|]. intros _. repeat split; lia.
  - destruct (executor st) as [|j0 q] eqn:E; [discriminate|].
    injection Hn as Hn. rewrite replicate_S, run_cons.
    assert (Hk : executor st !! 0%nat = Some j0) by now rewrite E.
    simpl (step _ _ _).
    destruct (worker_ran W 0 st j0 Hk) as (Hex & Hatt & s & Hs & Hes & Hcsv & Hw).
    rewrite E in Hex. simpl in Hex.
    assert (Hn1 : n = length (executor (worker W 0 st))) by now rewrite Hex.
    destruct (IH (worker W 0 st) Hn1) as (IH1 & IH2 & IH3 & IH4 & IH5).
    assert (Hlen : (length (csv_file st) <= length (csv_file (worker W 0 st))
                    <= length (csv_file st) + 1)%nat).
    { destruct Hcsv as [-> | (date & ->)]; [lia|]. rewrite length_app. simpl. lia. }
    split; [exact IH1|]. split; [|split; [lia|split; [lia|]]].
    + intros j Hj. apply elem_of_cons in Hj as [-> | Hj].
      * apply run_keeps_terminal. exists s. split; [exact Hs|].
        rewrite Hes. apply lookup_insert_eq.
      * apply IH2. now rewrite Hex.
    + intros Hlog. destruct (IH5 Hlog) as (I1 & I2 & I3 & I4).
      destruct (Hw Hlog) as ((date & Hrow) & Hone & Hout & Hsl).
      rewrite I1, I2, I3, I4, Hone, Hout, Hsl, Hrow, length_app. simpl.
      repeat split; lia.
Qed.

(** ** One delivery attempt *)

(** The outcomes of one call of [send_email].  It always makes one
    delivery attempt and leaves the queue, the output, the sleeps and the
    status of every other identifier as they were.  Either it returns,
    having appended one row for its identifier and set the status of the
    identifier to the status of that row (["sent"] or [failed (e)]); or it
    raises the error of an append to the log, having written neither a row
    nor a status.  When the log can be written it returns, and the status
    is ["sent"] when the relay took the message and [failed (e)] when the
    attempt raised [e]. *)
Theorem send_email_outcomes (W : world) (subject recipient body : string)
    (is_html : bool) (request_id sender_email sender_password : string)
    (sender_name cc bcc : option string) (st : state) :
  exists o st',
    send_email W subject recipient body is_html request_id
      sender_email sender_password sender_name cc bcc st = (o, st') /\
    delivery_attempts st' = S (delivery_attempts st) /\
    executor st' = executor st /\ stdout st' = stdout st /\ slept st' = slept st /\
    (forall other, other <> request_id ->
       get_email_status other st' = get_email_status other st) /\
    ((o = Returns tt /\
      exists status date,
        terminal status /\
        get_email_status request_id st'
        = Jsonify [("request_id", request_id); ("status", status)] 200 /\
        csv_file st' =
          (csv_file st ++
             [[request_id; sender_email; recipient; subject; date; status]])%list) \/
     (exists e n row,
        o = Raises e /\ csv_append W n row = Some e /\
        email_status st' = email_status st /\ csv_file st' = csv_file st)) /\
    (log_writable W ->
     o = Returns tt /\
     get_email_status request_id st'
     = Jsonify [("request_id", request_id);
                ("status", status_of_answer
                             (relay_answer W subject recipient body is_html
                                sender_email sender_password sender_name cc bcc st))] 200).
Proof.
  destruct (send_email_cases W subject recipient body is_html request_id
              sender_email sender_password sender_name cc bcc st)
    as (o & st' & Hcall & Hatt & Hout & Hsl & Hex & Hcases).
  exists o, st'. split; [exact Hcall|]. split; [exact Hatt|].
  split; [exact Hex|]. split; [exact Hout|]. split; [exact Hsl|].
  split; [|split].
  - intros other Hne. unfold get_email_status.
    destruct Hcases as [(_ & s & date & _ & -> & _) | (e & n & row & _ & _ & -> & _)];
      [|reflexivity].
    now rewrite lookup_insert_ne by congruence.
  - destruct Hcases as [(-> & s & date & Hs & Hes & Hcsv) | Hraise]; [left|now right].
    split; [reflexivity|]. exists s, date. split; [exact Hs|]. split; [|exact Hcsv].
    unfold get_email_status. now rewrite Hes, lookup_insert_eq.
  - intros Hlog. rewrite send_email_state in Hcall by exact Hlog.
    injection Hcall as <- <-. split; [reflexivity|].
    unfold get_email_status. simpl. now rewrite lookup_insert_eq.
Qed.

(** ** From request to status *)

(** For an accepted request whose fields have the types of the API, when
    the log can be written: once a worker has run the job of the request,
    the status of the request is the one that the answer of the relay
    dictates, and the relay was given the message built from the request:
    To, Subject and text are the recipient, subject and body of the
    request, the text is HTML when [is_html] is [true] and plain when it is
    [false] or absent, Cc and Bcc are set only when non-empty, and From is
    the display name and address of the sender.  The log gains the row of
    that attempt and the queue is as before the request. *)
Theorem accepted_request_is_delivered (W : world) (data : request_body) (uuid4 : string)
    (st : state) :
  admitted W data = true ->
  log_writable W ->
  let message :=
    {| hdr_From := format_value (getenv W "EMAIL_FROM_NAME") ++ " <"
                   ++ str_of (getenv W "USER_EMAIL") ++ ">";
       hdr_To := str_of (get_recipient data);
       hdr_Cc := if truthy (get_cc data) then get_cc data else None;
       hdr_Bcc := if truthy (get_bcc data) then get_bcc data else None;
       hdr_Subject := str_of (get_subject data);
       part_text := str_of (get_body data);
       part_subtype := if default false (get_is_html data) then "html" else "plain" |} in
  let status :=
    status_of_answer
      (smtp W (delivery_attempts st)
            (default "smtp.gmail.com" (getenv W "SMTP_SERVER")) (getenv W "SMTP_PORT")
            (str_of (getenv W "USER_EMAIL")) (str_of (getenv W "USER_APP_PASSWORD"))
            message) in
  let st2 := worker W (length (executor st)) (snd (handle_send_email W data uuid4 st)) in
  get_email_status uuid4 st2
  = Jsonify [("request_id", uuid4); ("status", status)] 200 /\
  csv_file st2
  = (csv_file st ++
       [[uuid4; str_of (getenv W "USER_EMAIL"); str_of (get_recipient data);
         str_of (get_subject data); now W (length (csv_file st)); status]])%list /\
  executor st2 = executor st /\
  delivery_attempts st2 = S (delivery_attempts st).
Proof.
  intros Hadm Hlog. unfold admitted in Hadm.
  destruct (validate_email_data data) as [[]|] eqn:Hv; [|discriminate].
  apply andb_true_iff in Hadm as [He Hp].
  rewrite (handle_send_email_accepted W data uuid4 st Hv He Hp).
  cbv zeta. unfold worker, run_job. simpl (snd _). simpl (executor _).
  rewrite list_lookup_middle by reflexivity.
  rewrite send_email_with_retry_once by exact Hlog. change (0 <? 3) with true. cbv iota.
  rewrite send_email_state by exact Hlog.
  unfold get_email_status, relay_answer, compose_message. simpl.
  rewrite lookup_insert_eq. split; [reflexivity|]. split; [reflexivity|].
  split; [|reflexivity].
  etrans; [apply (delete_middle (executor st) []) | apply app_nil_r].
Qed.

Lemma accepted_request_is_delivered_witness :
  admitted (sample_world sample_environ None)
    (mkBody (Some "Hello") (Some "bob@example.org") (Some "<b>Hi</b>") (Some true)
            (Some "") None) = true /\
  log_writable (sample_world sample_environ None) /\
  get_email_status "id-1"
    (worker (sample_world sample_environ None) (length (executor initial_state))
       (snd (handle_send_email (sample_world sample_environ None)
               (mkBody (Some "Hello") (Some "bob@example.org") (Some "<b>Hi</b>") (Some true)
                       (Some "") None) "id-1" initial_state)))
  = Jsonify [("request_id", "id-1"); ("status", "sent")] 200.
Proof.
  split; [reflexivity|]. split; [intros n row; reflexivity|].
  apply (accepted_request_is_delivered (sample_world sample_environ None)
           (mkBody (Some "Hello") (Some "bob@example.org") (Some "<b>Hi</b>") (Some true)
                   (Some "") None) "id-1" initial_state).
  - reflexivity.
  - intros n row. reflexivity.
Defined.
